(** * Geo-Data-Dashboard: the query engine and the table hook

    A shallow embedding of [src/data/mockApi.ts] (the record cache and
    [fetchProjects]), of [src/hooks/useTableData.ts] (the hook's state and
    its handlers) and of the two derived values of [App.tsx] and
    [DataTable.tsx] that the properties below talk about.

    Conventions of the embedding.
    - A JavaScript string is a [string] whose characters are the code units
      U+0000..U+00FF; on that range [toLowerCase] and [trim] are written out
      exactly.  [localeCompare] depends on the host's collation and is kept
      abstract: it is only known to be a consistent comparator.
    - JavaScript numbers that hold integers ([page], [pageSize], indices,
      lengths) are [Z].  [latitude] and [longitude] are stored in millionths
      of a degree, the precision [generateMockData] rounds to; the sort only
      looks at the sign of a difference, which the scaling preserves.
    - Arrays live in a heap and are named by locations, so that the in-place
      [Array.prototype.sort] and the aliasing between [data] and
      [cachedData] are visible. *)

From Stdlib Require Import ZArith Lia Bool Ascii String List Permutation Sorted.
From Stdlib Require Import OrdersEx.
From Stdlib Require DecimalString DecimalNat.
From stdpp Require Import base list strings gmap sorting.

Local Open Scope Z_scope.

(** ** JavaScript built-ins used by the sources *)

Module JS.

(** [String.prototype.toLowerCase] on one code unit: A..Z and the Latin-1
    capitals U+00C0..U+00DE (U+00D7 is the multiplication sign). *)
Definition lowerUnit (c : ascii) : ascii :=
  let n := N_of_ascii c in
  if ((65 <=? n) && (n <=? 90) ||
      (192 <=? n) && (n <=? 222) && negb (n =? 215))%N
  then ascii_of_N (n + 32) else c.

Fixpoint toLowerCase (s : string) : string :=
  match s with
  | EmptyString => EmptyString
  | String c s' => String (lowerUnit c) (toLowerCase s')
  end.

(** White space and line terminators stripped by [trim]: TAB, LF, VT, FF,
    CR, SP and NBSP. *)
Definition isWhiteSpace (c : ascii) : bool :=
  let n := N_of_ascii c in
  ((9 <=? n) && (n <=? 13) || (n =? 32) || (n =? 160))%N.

Fixpoint trimStart (s : string) : string :=
  match s with
  | EmptyString => EmptyString
  | String c s' => if isWhiteSpace c then trimStart s' else s
  end.

Fixpoint trimEnd (s : string) : string :=
  match s with
  | EmptyString => EmptyString
  | String c s' =>
      match trimEnd s' with
      | EmptyString => if isWhiteSpace c then EmptyString else String c EmptyString
      | t => String c t
      end
  end.

Definition trim (s : string) : string := trimEnd (trimStart s).

(** A string is truthy when it is not empty. *)
Definition truthy (s : string) : bool :=
  match s with EmptyString => false | String _ _ => true end.

(** [s.includes(sub)] *)
Fixpoint includes (s sub : string) : bool :=
  String.prefix sub s ||
  match s with
  | EmptyString => false
  | String _ s' => includes s' sub
  end.

(** [String.prototype.localeCompare]: implementation-defined, but required
    to be a consistent comparator (a total preorder on strings). *)
Class Collator := {
  localeCompare : string -> string -> Z;
  localeCompare_antisym :
    forall a b, Z.sgn (localeCompare b a) = - Z.sgn (localeCompare a b);
  localeCompare_trans :
    forall a b c,
      localeCompare a b <= 0 -> localeCompare b c <= 0 -> localeCompare a c <= 0
}.

Section Arrays.
Context {A : Type}.

(** Relative index of [Array.prototype.slice]: a negative index counts from
    the end, and the result is clamped to [0, len]. *)
Definition relativeIndex (len i : Z) : Z :=
  if i <? 0 then Z.max (len + i) 0 else Z.min i len.

(** [arr.slice(start, end)] *)
Definition slice (start end_ : Z) (arr : list A) : list A :=
  let len := Z.of_nat (length arr) in
  let k := relativeIndex len start in
  let final := relativeIndex len end_ in
  take (Z.to_nat (final - k)) (drop (Z.to_nat k) arr).

(** [Array.prototype.sort(compareFn)] is a stable sort: an element moves in
    front of another one only when the comparator says it is strictly
    smaller.  Insertion from the right computes that arrangement. *)
Fixpoint insert (compareFn : A -> A -> Z) (x : A) (arr : list A) : list A :=
  match arr with
  | [] => [x]
  | y :: arr' =>
      if compareFn x y <=? 0 then x :: arr
      else y :: insert compareFn x arr'
  end.

Fixpoint sort (compareFn : A -> A -> Z) (arr : list A) : list A :=
  match arr with
  | [] => []
  | x :: arr' => insert compareFn x (sort compareFn arr')
  end.

(** [arr.find(p) || null] *)
Definition find (p : A -> bool) (arr : list A) : option A := List.find p arr.
End Arrays.

End JS.

Import JS.

(** ** [types/index.ts] *)

Inductive Status := Active | Inactive | Completed | Pending.

(** The string a status is at run time. *)
Definition statusString (s : Status) : string :=
  match s with
  | Active => "Active"
  | Inactive => "Inactive"
  | Completed => "Completed"
  | Pending => "Pending"
  end.

Record GeoProject := {
  id : string;
  projectName : string;
  latitude : Z;
  longitude : Z;
  status : Status;
  lastUpdated : string
}.

(** [keyof GeoProject] *)
Inductive Key := Kid | KprojectName | Klatitude | Klongitude | Kstatus | KlastUpdated.

Inductive SortOrder := asc | desc.

Module ApiResponse.
Record t := {
  data : list GeoProject;
  total : Z;
  page : Z;
  pageSize : Z
}.
End ApiResponse.

Module TableState.
Record t := {
  page : Z;
  pageSize : Z;
  sortBy : option Key;
  sortOrder : SortOrder;
  filterText : string
}.
End TableState.


(** ** The heap of arrays

    An array is a heap cell holding its elements; variables hold locations.
    Records are never written by the code under study, so an array holds
    them by value. *)

Definition loc := nat.

Record Store := {
  heap : list (list GeoProject);
  cachedData : option loc          (* [let cachedData: GeoProject[] | null] *)
}.

Definition M (X : Type) : Type := Store -> X * Store.

Definition ret {X} (x : X) : M X := fun st => (x, st).

Definition bind {X Y} (m : M X) (k : X -> M Y) : M Y :=
  fun st => let (x, st') := m st in k x st'.

Notation "x <- m ;; k" := (bind m (fun x => k))
  (at level 100, m at level 99, k at level 200, right associativity).
Notation "m ;;; k" := (bind m (fun _ => k))
  (at level 100, k at level 200, right associativity).

(** The elements of the array at a location.  A location that holds no
    array reads as the empty array; no well-formed store has such a location
    in use. *)
Definition contents (h : list (list GeoProject)) (l : loc) : list GeoProject :=
  default [] (h !! l).

Definition readArray (l : loc) : M (list GeoProject) :=
  fun st => (contents (heap st) l, st).

Definition allocArray (arr : list GeoProject) : M loc :=
  fun st => (length (heap st),
             {| heap := heap st ++ [arr]; cachedData := cachedData st |}).

Definition writeArray (l : loc) (arr : list GeoProject) : M unit :=
  fun st => (tt, {| heap := <[l := arr]> (heap st); cachedData := cachedData st |}).

Definition getCachedData : M (option loc) := fun st => (cachedData st, st).

Definition setCachedData (c : option loc) : M unit :=
  fun st => (tt, {| heap := heap st; cachedData := c |}).

(** [arr.filter(p)]: a new array. *)
Definition Array_filter (p : GeoProject -> bool) (l : loc) : M loc :=
  arr <- readArray l ;; allocArray (List.filter p arr).

(** [[...arr]]: a new array with the same elements. *)
Definition Array_spread (l : loc) : M loc :=
  arr <- readArray l ;; allocArray arr.

(** [arr.sort(compareFn)]: sorts [arr] in place and returns it. *)
Definition Array_sort (compareFn : GeoProject -> GeoProject -> Z) (l : loc) : M loc :=
  arr <- readArray l ;; writeArray l (JS.sort compareFn arr) ;;; ret l.

(** [arr.slice(start, end)]: a new array. *)
Definition Array_slice (start end_ : Z) (l : loc) : M loc :=
  arr <- readArray l ;; allocArray (JS.slice start end_ arr).

(** [arr.length] *)
Definition Array_length (l : loc) : M Z :=
  arr <- readArray l ;; ret (Z.of_nat (length arr)).

(** ** [data/mockApi.ts] *)

(** A run-time value of a field of a record. *)
Inductive Value := VString (s : string) | VNumber (n : Z).

(** [a[sortBy]] *)
Definition get (a : GeoProject) (k : Key) : Value :=
  match k with
  | Kid => VString (id a)
  | KprojectName => VString (projectName a)
  | Klatitude => VNumber (latitude a)
  | Klongitude => VNumber (longitude a)
  | Kstatus => VString (statusString (status a))
  | KlastUpdated => VString (lastUpdated a)
  end.

(** The arrow function given to [data.filter]. *)
Definition filterFn (filter : string) (project : GeoProject) : bool :=
  includes (toLowerCase (projectName project)) filter ||
  includes (toLowerCase (statusString (status project))) filter ||
  includes (toLowerCase (id project)) filter.

(** [sortOrder === 'asc'], for an optional argument. *)
Definition isAsc (sortOrder : option SortOrder) : bool :=
  match sortOrder with Some asc => true | _ => false end.

Section MockApi.
Context `{Collator}.

(** The array one run of [generateMockData] returns.  The generator draws
    from [Math.random] and [Date.now]; nothing below depends on what it
    drew. *)
Variable generateMockData : list GeoProject.

(** The arrow function given to [sort].  Both values are read from the same
    field, so the mixed cases do not arise. *)
Definition compareFn (sortBy : Key) (sortOrder : option SortOrder)
    (a b : GeoProject) : Z :=
  match get a sortBy, get b sortBy with
  | VString aVal, VString bVal =>
      if isAsc sortOrder then localeCompare aVal bVal else localeCompare bVal aVal
  | VNumber aVal, VNumber bVal =>
      if isAsc sortOrder then aVal - bVal else bVal - aVal
  | _, _ => 0
  end.

Definition getMockData : M loc :=
  c <- getCachedData ;;
  match c with
  | Some l => ret l
  | None =>
      l <- allocArray generateMockData ;;
      setCachedData (Some l) ;;;
      ret l
  end.

(** The body of the [setTimeout] callback of [fetchProjects]; the value
    returned is the one the promise resolves with. *)
Definition fetchProjects (page pageSize : Z) (sortBy : option Key)
    (sortOrder : option SortOrder) (filterText : option string)
    : M ApiResponse.t :=
  data <- getMockData ;;
  (* Apply filtering *)
  data <- match filterText with
          | Some text =>
              if truthy (trim text) then
                let filter := toLowerCase text in
                Array_filter (filterFn filter) data
              else ret data
          | None => ret data
          end ;;
  (* Apply sorting *)
  data <- match sortBy with
          | Some key =>
              copy <- Array_spread data ;;
              Array_sort (compareFn key sortOrder) copy
          | None => ret data
          end ;;
  (* Apply pagination *)
  let startIdx := (page - 1) * pageSize in
  let endIdx := startIdx + pageSize in
  paginatedData <- Array_slice startIdx endIdx data ;;
  items <- readArray paginatedData ;;
  len <- Array_length data ;;
  ret {| ApiResponse.data := items;
         ApiResponse.total := len;
         ApiResponse.page := page;
         ApiResponse.pageSize := pageSize |}.

End MockApi.

(** ** [hooks/useTableData.ts] *)

Record HookState := {
  data : list GeoProject;
  loading : bool;
  total : Z;
  state : TableState.t;
  selectedId : option string
}.

(** The values given to [useState]. *)
Definition initialState : HookState := {|
  data := [];
  loading := false;
  total := 0;
  state := {| TableState.page := 1;
              TableState.pageSize := 50;
              TableState.sortBy := None;
              TableState.sortOrder := asc;
              TableState.filterText := "" |};
  selectedId := None
|}.

Section LoadData.
Context `{Collator}.
Variable generateMockData : list GeoProject.

(** [loadData], from [setLoading(true)] to the [finally] block.
    [fetchProjects] never rejects, so the [catch] block is dead.
    [state.sortBy || undefined] turns [null] into a missing argument; the
    fifth argument is not passed. *)
Definition loadData (h : HookState) : M HookState :=
  let h := {| data := data h; loading := true; total := total h;
              state := state h; selectedId := selectedId h |} in
  response <- fetchProjects generateMockData
                (TableState.page (state h))
                (TableState.pageSize (state h))
                (TableState.sortBy (state h))
                (Some (TableState.sortOrder (state h)))
                None ;;
  ret {| data := ApiResponse.data response;
         loading := false;
         total := ApiResponse.total response;
         state := state h;
         selectedId := selectedId h |}.

End LoadData.

#[global] Instance Key_eq_dec : EqDecision Key.
Proof. solve_decision. Defined.

#[global] Instance SortOrder_eq_dec : EqDecision SortOrder.
Proof. solve_decision. Defined.

(** [setState((prev) => ({ ...prev, ... }))] on the [state] cell. *)
Definition setState (f : TableState.t -> TableState.t) (h : HookState) : HookState :=
  {| data := data h; loading := loading h; total := total h;
     state := f (state h); selectedId := selectedId h |}.

Definition setSelectedId (v : option string) (h : HookState) : HookState :=
  {| data := data h; loading := loading h; total := total h;
     state := state h; selectedId := v |}.

Definition handleSearch (text : string) : HookState -> HookState :=
  setState (fun prev =>
    {| TableState.page := 1;
       TableState.pageSize := TableState.pageSize prev;
       TableState.sortBy := TableState.sortBy prev;
       TableState.sortOrder := TableState.sortOrder prev;
       TableState.filterText := text |}).

Definition handleSort (column : Key) : HookState -> HookState :=
  setState (fun prev =>
    {| TableState.page := 1;
       TableState.pageSize := TableState.pageSize prev;
       TableState.sortBy :=
         if bool_decide (TableState.sortBy prev = Some column)
         then Some column else Some column;
       TableState.sortOrder :=
         if bool_decide (TableState.sortBy prev = Some column) &&
            bool_decide (TableState.sortOrder prev = asc)
         then desc else asc;
       TableState.filterText := TableState.filterText prev |}).

Definition handlePageChange (page : Z) : HookState -> HookState :=
  setState (fun prev =>
    {| TableState.page := page;
       TableState.pageSize := TableState.pageSize prev;
       TableState.sortBy := TableState.sortBy prev;
       TableState.sortOrder := TableState.sortOrder prev;
       TableState.filterText := TableState.filterText prev |}).

Definition handlePageSizeChange (pageSize : Z) : HookState -> HookState :=
  setState (fun prev =>
    {| TableState.page := 1;
       TableState.pageSize := pageSize;
       TableState.sortBy := TableState.sortBy prev;
       TableState.sortOrder := TableState.sortOrder prev;
       TableState.filterText := TableState.filterText prev |}).

Definition handleRowSelect (id : string) : HookState -> HookState :=
  setSelectedId (Some id).

(** The callbacks the hook hands to the views.  [DataTable] calls
    [onRowSelect] and [GeoMap] calls [onMarkerClick]; [App] passes
    [handleRowSelect] for both. *)
Inductive Action :=
| OnFilter (text : string)
| OnSort (column : Key)
| OnPageChange (page : Z)
| OnPageSizeChange (pageSize : Z)
| OnRowSelect (id : string)
| OnMarkerClick (id : string).

Definition dispatch (a : Action) : HookState -> HookState :=
  match a with
  | OnFilter text => handleSearch text
  | OnSort column => handleSort column
  | OnPageChange page => handlePageChange page
  | OnPageSizeChange pageSize => handlePageSizeChange pageSize
  | OnRowSelect id => handleRowSelect id
  | OnMarkerClick id => handleRowSelect id
  end.

(** ** Derived values of the views *)

(** [selectedProject] of [App.tsx]. *)
Definition selectedProject (h : HookState) : option GeoProject :=
  match selectedId h with
  | None => None
  | Some sel =>
      if truthy sel then JS.find (fun project => String.eqb (id project) sel) (data h)
      else None
  end.

(** [totalPages] of [DataTable.tsx], [Math.ceil(total / state.pageSize)];
    [None] when the quotient is not a finite number. *)
Definition totalPages (total pageSize : Z) : option Z :=
  if pageSize =? 0 then None else Some (- ((- total) / pageSize)).

(** ** Reading a store *)

(** The array [getMockData] hands out in a store: the cached one, or the
    freshly generated one when nothing is cached yet. *)
Definition snapshot (generateMockData : list GeoProject) (st : Store)
    : list GeoProject :=
  match cachedData st with
  | Some l => contents (heap st) l
  | None => generateMockData
  end.

(** Every location in use holds an array. *)
Definition wf (st : Store) : Prop :=
  match cachedData st with
  | Some l => (l < length (heap st))%nat
  | None => True
  end.

(** A store whose cache holds [records]. *)
Definition storeOf (records : list GeoProject) : Store :=
  {| heap := [records]; cachedData := Some 0%nat |}.

(** The store before the first call. *)
Definition emptyStore : Store := {| heap := []; cachedData := None |}.

(** ** The pipeline on values

    What the three blocks of [fetchProjects] compute, as functions of the
    contents of the array they are given. *)

Section Pipeline.
Context `{Collator}.

Definition filterStep (filterText : option string) (records : list GeoProject)
    : list GeoProject :=
  match filterText with
  | Some text =>
      if truthy (trim text)
      then List.filter (filterFn (toLowerCase text)) records
      else records
  | None => records
  end.

Definition sortStep (sortBy : option Key) (sortOrder : option SortOrder)
    (records : list GeoProject) : list GeoProject :=
  match sortBy with
  | Some key => JS.sort (compareFn key sortOrder) records
  | None => records
  end.

Definition pageStep (page pageSize : Z) (records : list GeoProject)
    : list GeoProject :=
  let startIdx := (page - 1) * pageSize in
  let endIdx := startIdx + pageSize in
  JS.slice startIdx endIdx records.

(** The filtered and sorted full sequence of a query. *)
Definition fullSequence (sortBy : option Key) (sortOrder : option SortOrder)
    (filterText : option string) (records : list GeoProject) : list GeoProject :=
  sortStep sortBy sortOrder (filterStep filterText records).

End Pipeline.

(** ** Vocabulary of the specification *)

(** [sub] occurs in [s]. *)
Definition Substring (sub s : string) : Prop :=
  exists pre post, s = pre +:+ sub +:+ post.

(** The case-insensitive substring rule on one field. *)
Definition matchesField (filterText field : string) : Prop :=
  Substring (toLowerCase filterText) (toLowerCase field).

(** A record matches when its name, its status or its id does. *)
Definition matchesRule (filterText : string) (r : GeoProject) : Prop :=
  matchesField filterText (projectName r) \/
  matchesField filterText (statusString (status r)) \/
  matchesField filterText (id r).

(** Every character of the string is white space (the empty string
    included). *)
Fixpoint whitespaceOnly (s : string) : Prop :=
  match s with
  | EmptyString => True
  | String c s' => isWhiteSpace c = true /\ whitespaceOnly s'
  end.

(** The elements of [l] at the positions [lo <= i < hi]. *)
Definition window {A} (lo hi : nat) (l : list A) : list A :=
  take (hi - lo) (drop lo l).

(** The order a comparator induces. *)
Definition leBy {A} (cmp : A -> A -> Z) (a b : A) : Prop := cmp a b <= 0.

(** The elements of [l] that the comparator ties with [x], in the order
    they have in [l]. *)
Definition tiedWith {A} (cmp : A -> A -> Z) (x : A) (l : list A) : list A :=
  List.filter (fun y => cmp x y =? 0) l.

(** [l'] is the stable sort of [l]: the same elements, in ascending order of
    the comparator, tied elements in the order they had. *)
Definition StableSortOf {A} (cmp : A -> A -> Z) (l l' : list A) : Prop :=
  Permutation l l' /\
  StronglySorted (leBy cmp) l' /\
  forall x, tiedWith cmp x l' = tiedWith cmp x l.

(** The comparator the specification gives for a key: locale order on a
    string field, numeric difference on a numeric one. *)
Definition keyCompare `{Collator} (key : Key) (a b : GeoProject) : Z :=
  match key with
  | Kid => localeCompare (id a) (id b)
  | KprojectName => localeCompare (projectName a) (projectName b)
  | Klatitude => latitude a - latitude b
  | Klongitude => longitude a - longitude b
  | Kstatus => localeCompare (statusString (status a)) (statusString (status b))
  | KlastUpdated => localeCompare (lastUpdated a) (lastUpdated b)
  end.

(** The start of page [page] lies at or beyond the end of [total] records:
    the page is past the last available one. *)
Definition pastLastPage (page pageSize total : Z) : Prop :=
  total <= (page - 1) * pageSize.

(** A consistent comparator, as ECMAScript asks of the argument of [sort]:
    swapping the arguments flips the sign, and the induced order is
    transitive. *)
Record Consistent {A} (cmp : A -> A -> Z) : Prop := {
  cmp_antisym : forall a b, Z.sgn (cmp b a) = - Z.sgn (cmp a b);
  cmp_trans : forall a b c, cmp a b <= 0 -> cmp b c <= 0 -> cmp a c <= 0
}.

(** [d] names an array holding [arr]; a location outside the heap can only
    stand for the empty array. *)
Definition Holds (h : list (list GeoProject)) (d : loc) (arr : list GeoProject) : Prop :=
  contents h d = arr /\ ((d < length h)%nat \/ arr = []).

(** The comparator of the specification for a key and an order: [desc]
    reverses the result. *)
Definition orderedCompare `{Collator} (key : Key) (sortOrder : SortOrder)
    (a b : GeoProject) : Z :=
  match sortOrder with
  | asc => keyCompare key a b
  | desc => - keyCompare key a b
  end.

(** The pagination law of the specification for one response: the items are
    the positions [(page-1)*pageSize <= i < page*pageSize] of the full
    sequence, and their number is given by the closed formula. *)
Definition paginationLaw (resp : ApiResponse.t) (full : list GeoProject)
    (page pageSize : Z) : Prop :=
  ApiResponse.data resp =
    window (Z.to_nat ((page - 1) * pageSize)) (Z.to_nat (page * pageSize)) full /\
  Z.of_nat (length (ApiResponse.data resp)) =
    Z.min pageSize (Z.max 0 (ApiResponse.total resp - (page - 1) * pageSize)).

(** Three records to compute with; the first and the third have the same
    latitude. *)
Definition sampleA : GeoProject := {|
  id := "project-1"; projectName := "Solar Farm Alpha 1";
  latitude := 10500000; longitude := -20250000;
  status := Active; lastUpdated := "2025-06-01"
|}.

Definition sampleB : GeoProject := {|
  id := "project-2"; projectName := "Wind Energy Beta 1";
  latitude := -5250000; longitude := 30000000;
  status := Pending; lastUpdated := "2025-03-15"
|}.

Definition sampleC : GeoProject := {|
  id := "project-3"; projectName := "Hydroelectric Project 1";
  latitude := 10500000; longitude := 7000000;
  status := Inactive; lastUpdated := "2024-12-24"
|}.

(** ** A collator to compute with

    Comparison by code units is a consistent comparator: the class has
    instances, and the examples run the model with this one. *)

Definition codeUnitCompare (a b : string) : Z :=
  match String_as_OT.compare a b with
  | Eq => 0
  | Lt => -1
  | Gt => 1
  end.

Definition codeUnitCollator : Collator.
Proof.
  pose proof (@StrictOrder_Irreflexive _ _ String_as_OT.lt_strorder) as Hirr.
  pose proof (@StrictOrder_Transitive _ _ String_as_OT.lt_strorder) as Htr.
  refine {| localeCompare := codeUnitCompare |}; unfold codeUnitCompare.
  - intros a b.
    destruct (String_as_OT.compare_spec a b) as [E|L|G];
      destruct (String_as_OT.compare_spec b a) as [E'|L'|G'];
      unfold String_as_OT.eq in *; subst; try reflexivity; exfalso;
      try (eapply Hirr; eassumption);
      apply (Hirr a), (Htr a b a); assumption.
  - intros a b c.
    destruct (String_as_OT.compare_spec a b) as [E|L|G]; [| |lia];
      destruct (String_as_OT.compare_spec b c) as [E'|L'|G']; try lia;
      destruct (String_as_OT.compare_spec a c) as [E''|L''|G'']; try lia;
      unfold String_as_OT.eq in *; subst; intros _ _; exfalso;
      try (eapply Hirr; eassumption);
      try (apply (Hirr a), (Htr a c a); assumption);
      try (apply (Hirr b), (Htr b c b); assumption).
    apply (Hirr a), (Htr a b a); [assumption|]. apply (Htr b c a); assumption.
Defined.

(** ** [generateMockData]

    The loop of the generator, with what it draws made explicit.  In
    iteration [i] the code reads [Math.random] four times and [Date.now]
    once; what it stores from them is the rounded latitude and longitude, a
    status and a date string.  Those four values are the draw of the
    iteration; the id and the name are computed from [i]. *)

Record Drawn := {
  drawnLatitude : Z;       (* [parseFloat(lat.toFixed(6))] *)
  drawnLongitude : Z;      (* [parseFloat(lng.toFixed(6))] *)
  drawnStatus : Status;    (* [statuses[Math.floor(Math.random() * statuses.length)]] *)
  drawnDate : string       (* [new Date(...).toISOString().split('T')[0]] *)
}.

Definition projectNames : list string := [
  "Solar Farm Alpha";
  "Wind Energy Beta";
  "Hydroelectric Project";
  "Geothermal Station";
  "Biomass Facility";
  "Grid Infrastructure";
  "Smart City Initiative";
  "Environmental Survey";
  "Resource Mapping";
  "Climate Analysis";
  "Urban Planning Zone";
  "Agricultural Census";
  "Mineral Exploration";
  "Water Resource Study";
  "Coastal Management"
].

(** A non-negative integer in a template literal: its decimal digits. *)
Definition Number_toString (n : nat) : string :=
  DecimalString.NilEmpty.string_of_uint (Nat.to_uint n).

(** The object pushed in iteration [i]. *)
Definition generatedProject (drawn : nat -> Drawn) (i : nat) : GeoProject := {|
  id := "project-" +:+ Number_toString (i + 1);
  projectName :=
    nth (i mod length projectNames) projectNames "" +:+ " " +:+
    Number_toString (i / length projectNames + 1);
  latitude := drawnLatitude (drawn i);
  longitude := drawnLongitude (drawn i);
  status := drawnStatus (drawn i);
  lastUpdated := drawnDate (drawn i)
|}.

(** [for (let i = 0; i < 5000; i++) data.push(...)] *)
Definition generateMockData (drawn : nat -> Drawn) : list GeoProject :=
  fold_left (fun data i => data ++ [generatedProject drawn i]) (seq 0 5000) [].

(** ** [components/DataTable.tsx] *)

(** [filteredData]: the rows the table renders, filtered on the client with
    the arrow function [fetchProjects] also uses. *)
Definition filteredData (data : list GeoProject) (state : TableState.t)
    : list GeoProject :=
  if negb (truthy (trim (TableState.filterText state))) then data
  else
    let filter := toLowerCase (TableState.filterText state) in
    List.filter (filterFn filter) data.

(** What [getSortIndicator] returns: [''], [' ↑'] or [' ↓']. *)
Inductive Indicator := NoArrow | ArrowUp | ArrowDown.

Definition getSortIndicator (state : TableState.t) (column : Key) : Indicator :=
  if negb (bool_decide (TableState.sortBy state = Some column)) then NoArrow
  else if bool_decide (TableState.sortOrder state = asc) then ArrowUp
  else ArrowDown.

(** The pagination footer: [Some (from, to, total)] for
    "Showing from to to of total results", [None] for "No results". *)
Definition paginationInfo (total : Z) (state : TableState.t) : option (Z * Z * Z) :=
  if 0 <? total then
    Some ((TableState.page state - 1) * TableState.pageSize state + 1,
          Z.min (TableState.page state * TableState.pageSize state) total,
          total)
  else None.

(** The four pagination buttons. *)
Inductive Button := FirstButton | PreviousButton | NextButton | LastButton.

(** The [disabled] attribute of a button. *)
Definition disabled (b : Button) (page totalPages : Z) : bool :=
  match b with
  | FirstButton | PreviousButton => page =? 1
  | NextButton | LastButton => totalPages <=? page
  end.

(** The argument a button gives to [onPageChange]. *)
Definition buttonTarget (b : Button) (page totalPages : Z) : Z :=
  match b with
  | FirstButton => 1
  | PreviousButton => page - 1
  | NextButton => page + 1
  | LastButton => totalPages
  end.

(** A click on a button: a disabled button fires no event.  When
    [totalPages] is not a finite number the comparisons and the target are
    not integers; no page size the table offers leads there, and the click
    is left out of the model. *)
Definition pressButton (b : Button) (h : HookState) : HookState :=
  match totalPages (total h) (TableState.pageSize (state h)) with
  | Some pages =>
      if disabled b (TableState.page (state h)) pages then h
      else handlePageChange (buttonTarget b (TableState.page (state h)) pages) h
  | None => h
  end.

(** The [<option>]s of the rows-per-page select, and [Number(e.target.value)]. *)
Inductive PageSizeOption := Rows10 | Rows25 | Rows50 | Rows100.

Definition rowsOf (o : PageSizeOption) : Z :=
  match o with
  | Rows10 => 10
  | Rows25 => 25
  | Rows50 => 50
  | Rows100 => 100
  end.

(** ** [components/GeoMap.tsx]

    Leaflet objects are kept symbolic: a marker is its position, its title,
    the icon it was last given and whether its popup is open; the view of
    the map is the last call that set it. *)

Inductive Icon :=
| LeafletDefault      (* the icon [L.marker] starts with *)
| SmallIcon           (* [iconSize: [25, 41]] *)
| LargeIcon.          (* [iconSize: [32, 41]] *)

Record Marker := {
  latLng : Z * Z;
  title : string;
  markerIcon : Icon;
  popupOpen : bool
}.

Inductive View :=
| InitialView                         (* [setView([20, 0], 2)] *)
| FitBounds (layers : list string)    (* [fitBounds] of the group with these markers *)
| SelectedView (center : Z * Z).      (* [setView(latLng, 10, { animate: true })] *)

Record GeoMapState := {
  mapReady : bool;                    (* [map.current] is set *)
  markers : gmap string Marker;       (* [markers.current] *)
  view : View
}.

(** [L.marker([project.latitude, project.longitude], { title })] with its
    popup bound. *)
Definition newMarker (project : GeoProject) : Marker := {|
  latLng := (latitude project, longitude project);
  title := projectName project;
  markerIcon := LeafletDefault;
  popupOpen := false
|}.

(** One step of [data.forEach]: the registry and the layers of [group]. *)
Definition addMarker (acc : gmap string Marker * list string) (project : GeoProject)
    : gmap string Marker * list string :=
  let (registry, group) := acc in
  match registry !! id project with
  | Some existingMarker => (registry, group)
  | None => (<[id project := newMarker project]> registry, group ++ [id project])
  end.

(** The effect "Add/update markers", up to its cleanup.  It returns the new
    state and the layers of the group it built. *)
Definition addMarkers (data : list GeoProject) (g : GeoMapState)
    : GeoMapState * list string :=
  if negb (mapReady g) || (length data =? 0)%nat then (g, [])
  else
    let (registry, group) := fold_left addMarker data (markers g, []) in
    ({| mapReady := mapReady g;
        markers := registry;
        view := if (0 <? length group)%nat then FitBounds group else view g |},
     group).

(** What is on the map.  The markers on the map are the layers of the group
    of the last run of "Add/update markers"; [layers] holds their keys.  A
    registered marker that is in no group is on no map. *)
Record MountedMap := {
  geo : GeoMapState;
  layers : list string
}.

(** [marker.closePopup()]. *)
Definition closePopup (marker : Marker) : Marker :=
  {| latLng := latLng marker; title := title marker;
     markerIcon := markerIcon marker; popupOpen := false |}.

(** The cleanup of "Add/update markers", [group.clearLayers()]: the layers
    of the group leave the map, and a layer that leaves the map closes its
    popup.  The registry keeps the markers. *)
Definition clearLayers (m : MountedMap) : MountedMap := {|
  geo := {| mapReady := mapReady (geo m);
            markers := map_imap
                         (fun id marker =>
                            Some (if bool_decide (id ∈ layers m)
                                  then closePopup marker else marker))
                         (markers (geo m));
            view := view (geo m) |};
  layers := []
|}.

(** A run of "Add/update markers" after [data] has changed: the cleanup of
    the run before, then the body, whose group goes on the map.  (A run
    that returned early left no cleanup and no layer behind.) *)
Definition markersEffect (data : list GeoProject) (m : MountedMap) : MountedMap :=
  let cleaned := clearLayers m in
  let (g, group) := addMarkers data (geo cleaned) in
  {| geo := g; layers := layers cleaned ++ group |}.

(** The icon and the popup a marker gets in "Highlight selected marker".
    [setIcon] works on any marker; [openPopup] opens the popup of a marker
    that is on the map and does nothing for one that is not. *)
Definition highlightMarker (selectedId : option string) (onMap : bool)
    (id : string) (marker : Marker) : Marker :=
  if bool_decide (selectedId = Some id) then
    {| latLng := latLng marker; title := title marker;
       markerIcon := LargeIcon;
       popupOpen := if onMap then true else popupOpen marker |}
  else
    {| latLng := latLng marker; title := title marker;
       markerIcon := SmallIcon; popupOpen := false |}.

(** The effect "Highlight selected marker": every registered marker is
    visited; the one whose key is the selected id also recentres the map,
    when there is a map. *)
Definition highlight (selectedId : option string) (m : MountedMap) : MountedMap := {|
  geo := {| mapReady := mapReady (geo m);
            markers := map_imap
                         (fun id marker =>
                            Some (highlightMarker selectedId
                                    (bool_decide (id ∈ layers m)) id marker))
                         (markers (geo m));
            view :=
              match selectedId with
              | Some sel =>
                  match markers (geo m) !! sel with
                  | Some marker =>
                      if mapReady (geo m) then SelectedView (latLng marker)
                      else view (geo m)
                  | None => view (geo m)
                  end
              | None => view (geo m)
              end |};
  layers := layers m
|}.

(** A marker that is not on the map has its popup closed. *)
Definition ClosedOffMap (m : MountedMap) : Prop :=
  forall i marker,
    markers (geo m) !! i = Some marker -> i ∉ layers m -> popupOpen marker = false.

(** ** Events of the page

    What a user can do to the table and the map, and the completion of a
    load.  [loadData] is asynchronous; here a load reads the state and
    stores its response in one step. *)

Inductive UiEvent :=
| Typed (text : string)                 (* the search input *)
| HeaderClicked (column : Key)          (* a sortable header *)
| PageSizeChosen (o : PageSizeOption)   (* the rows-per-page select *)
| ButtonPressed (b : Button)            (* a pagination button *)
| RowClicked (id : string)              (* a row of the table *)
| MarkerClicked (id : string)           (* a marker of the map *)
| DataLoaded.                           (* [loadData] has run *)

Definition uiStep `{Collator} (generated : list GeoProject) (ev : UiEvent)
    (c : HookState * Store) : HookState * Store :=
  let (h, st) := c in
  match ev with
  | Typed text => (handleSearch text h, st)
  | HeaderClicked column => (handleSort column h, st)
  | PageSizeChosen o => (handlePageSizeChange (rowsOf o) h, st)
  | ButtonPressed b => (pressButton b h, st)
  | RowClicked id => (handleRowSelect id h, st)
  | MarkerClicked id => (handleRowSelect id h, st)
  | DataLoaded => loadData generated h st
  end.

Definition uiRun `{Collator} (generated : list GeoProject) (evs : list UiEvent)
    (c : HookState * Store) : HookState * Store :=
  fold_left (fun c ev => uiStep generated ev c) evs c.

(** The handlers of the hook applied in sequence. *)
Definition dispatchAll (actions : list Action) (h : HookState) : HookState :=
  fold_left (fun h a => dispatch a h) actions h.

(** The id of the last selecting action of a sequence, if there is one. *)
Fixpoint lastSelected (actions : list Action) : option string :=
  match actions with
  | [] => None
  | a :: rest =>
      match lastSelected rest with
      | Some sel => Some sel
      | None =>
          match a with
          | OnRowSelect sel | OnMarkerClick sel => Some sel
          | _ => None
          end
      end
  end.

(** ** Vocabulary of the further properties *)

(** Whether record [i] of the generator matches the text "solar" through
    its name or its id; no status does. *)
Definition solarIndex (i : nat) : bool :=
  includes (toLowerCase
              (nth (i mod 15) projectNames "" +:+ " " +:+ Number_toString (i / 15 + 1)))
           "solar" ||
  includes (toLowerCase ("project-" +:+ Number_toString (i + 1))) "solar".

(** No two elements at different positions of [l] are tied. *)
Definition NoTies {A} (cmp : A -> A -> Z) (l : list A) : Prop :=
  ForallOrdPairs (fun a b => cmp a b <> 0) l.

(** What every state of the page satisfies: a positive page size, a total
    that is 0 or the size of the store, and a page that is 1 or starts
    inside the records the total counts. *)
Definition PageInRange (records : nat) (h : HookState) : Prop :=
  0 < TableState.pageSize (state h) /\
  (total h = 0 \/ total h = Z.of_nat records) /\
  1 <= TableState.page (state h) /\
  (TableState.page (state h) = 1 \/
   (TableState.page (state h) - 1) * TableState.pageSize (state h) < total h).

(** A generator that draws the same values in every iteration. *)
Definition sampleDrawn (i : nat) : Drawn := {|
  drawnLatitude := 12345678; drawnLongitude := -98765432;
  drawnStatus := Completed; drawnDate := "2025-01-31"
|}.

(** A map with its container in place and no marker yet. *)
Definition emptyMap : GeoMapState :=
  {| mapReady := true; markers := ∅; view := InitialView |}.

(** The same map, with nothing on it. *)
Definition emptyMounted : MountedMap := {| geo := emptyMap; layers := [] |}.

(** The ids of the items of a response, and its total. *)
Definition summary (resp : ApiResponse.t) : list string * Z :=
  (map id (ApiResponse.data resp), ApiResponse.total resp).

(** One call on a store caching the three records. *)
Definition sampleRun (page pageSize : Z) (sortBy : option Key)
    (sortOrder : option SortOrder) (filterText : option string)
    : list string * Z :=
  summary (fst (fetchProjects (H := codeUnitCollator) [] page pageSize sortBy
                  sortOrder filterText (storeOf [sampleA; sampleB; sampleC]))).

(** ** The model at work *)

Example lower_case : toLowerCase "Solar Farm Alpha 1" = "solar farm alpha 1".
Proof. reflexivity. Qed.

Example trim_spaces : trim "  wind beta   " = "wind beta".
Proof. reflexivity. Qed.

Example filter_ignores_case :
  sampleRun 1 10 None None (Some "SOLAR") = (["project-1"], 1).
Proof. reflexivity. Qed.

Example filter_on_status :
  sampleRun 1 10 None None (Some "active") = (["project-1"; "project-3"], 2).
Proof. reflexivity. Qed.

Example filter_keeps_its_spaces :
  sampleRun 1 10 None None (Some " solar") = ([], 0).
Proof. reflexivity. Qed.

Example blank_filter_keeps_all :
  sampleRun 1 10 None None (Some "   ") =
  (["project-1"; "project-2"; "project-3"], 3).
Proof. reflexivity. Qed.

Example sort_latitude_asc :
  sampleRun 1 10 (Some Klatitude) (Some asc) None =
  (["project-2"; "project-1"; "project-3"], 3).
Proof. reflexivity. Qed.

Example sort_latitude_desc_keeps_ties :
  sampleRun 1 10 (Some Klatitude) (Some desc) None =
  (["project-1"; "project-3"; "project-2"], 3).
Proof. reflexivity. Qed.

Example second_page :
  sampleRun 2 2 None None None = (["project-3"], 3).
Proof. reflexivity. Qed.

Example page_past_the_end :
  sampleRun 3 2 None None None = ([], 3).
Proof. reflexivity. Qed.

Example first_call_fills_the_cache :
  snd (fetchProjects (H := codeUnitCollator) [sampleA] 1 10 None None None
         emptyStore) =
  {| heap := [[sampleA]; [sampleA]]; cachedData := Some 0%nat |}.
Proof. reflexivity. Qed.

Example sort_toggles_order :
  TableState.sortOrder
    (state (handleSort Kstatus (handleSort Kstatus initialState))) = desc.
Proof. reflexivity. Qed.

Example generated_first :
  (id (generatedProject sampleDrawn 0), projectName (generatedProject sampleDrawn 0)) =
  ("project-1", "Solar Farm Alpha 1").
Proof. reflexivity. Qed.

Example generated_last :
  (id (generatedProject sampleDrawn 4999),
   projectName (generatedProject sampleDrawn 4999)) =
  ("project-5000", "Biomass Facility 334").
Proof. reflexivity. Qed.

Example next_button_at_the_last_page :
  let h := fst (loadData (H := codeUnitCollator) [sampleA; sampleB; sampleC]
                  (handlePageChange 2 (handlePageSizeChange 2 initialState))
                  emptyStore) in
  TableState.page (state (pressButton NextButton h)) = 2 /\
  TableState.page (state (pressButton LastButton h)) = 2 /\
  TableState.page (state (pressButton PreviousButton h)) = 1 /\
  TableState.page (state (pressButton LastButton (pressButton PreviousButton h))) = 2.
Proof. repeat split. Qed.

Example markers_of_a_page :
  snd (addMarkers [sampleA; sampleB] emptyMap) = ["project-1"; "project-2"] /\
  snd (addMarkers [sampleB; sampleC] (fst (addMarkers [sampleA; sampleB] emptyMap))) =
    ["project-3"] /\
  snd (addMarkers [sampleA; sampleB]
         (fst (addMarkers [sampleB; sampleC]
                 (fst (addMarkers [sampleA; sampleB] emptyMap))))) = [].
Proof. repeat split. Qed.

Example highlight_one_marker :
  let m := highlight (Some "project-2") (markersEffect [sampleA; sampleB] emptyMounted) in
  (markerIcon <$> markers (geo m) !! "project-1",
   markerIcon <$> markers (geo m) !! "project-2",
   popupOpen <$> markers (geo m) !! "project-2",
   view (geo m)) =
  (Some SmallIcon, Some LargeIcon, Some true,
   SelectedView (latitude sampleB, longitude sampleB)).
Proof. reflexivity. Qed.

Example highlight_after_a_reload :
  let m := highlight (Some "project-2")
             (markersEffect [sampleA; sampleB]
                (markersEffect [sampleA; sampleB] emptyMounted)) in
  (layers m,
   markerIcon <$> markers (geo m) !! "project-2",
   popupOpen <$> markers (geo m) !! "project-2") =
  ([], Some LargeIcon, Some false).
Proof. reflexivity. Qed.

(** ** Strings *)

Lemma append_String (c : ascii) (s t : string) :
  String c s +:+ t = String c (s +:+ t).
Proof. reflexivity. Qed.

Lemma append_Empty (t : string) : EmptyString +:+ t = t.
Proof. reflexivity. Qed.

Lemma prefix_app (sub s : string) :
  String.prefix sub s = true <-> exists post, s = sub +:+ post.
Proof.
  revert s. induction sub as [|c sub IH]; intros s; simpl.
  - destruct s; split; eauto.
  - destruct s as [|d s].
    + split; [discriminate | intros [post Hp]; discriminate].
    + simpl. destruct (Ascii.ascii_dec c d) as [->|Hne].
      * rewrite IH. split; intros [post Hp]; exists post;
          rewrite append_String in *; congruence.
      * split; [discriminate|].
        intros [post Hp]. rewrite append_String in Hp. congruence.
Qed.

Lemma includes_Substring (s sub : string) :
  includes s sub = true <-> Substring sub s.
Proof.
  unfold Substring. induction s as [|c s IH]; cbn [includes].
  - rewrite orb_false_r, prefix_app. split.
    + intros [post Hp]. exists EmptyString, post. exact Hp.
    + intros ([|d pre] & post & Hp).
      * rewrite append_Empty in Hp. eauto.
      * rewrite append_String in Hp. discriminate.
  - rewrite orb_true_iff, prefix_app, IH. split.
    + intros [[post Hp] | (pre & post & Hp)].
      * exists EmptyString, post. exact Hp.
      * exists (String c pre), post. rewrite append_String. congruence.
    + intros ([|d pre] & post & Hp).
      * left. rewrite append_Empty in Hp. eauto.
      * right. rewrite append_String in Hp. exists pre, post. congruence.
Qed.

Lemma trimStart_empty (s : string) :
  trimStart s = EmptyString <-> whitespaceOnly s.
Proof.
  induction s as [|c s IH]; simpl; [tauto|].
  destruct (isWhiteSpace c); [rewrite IH; tauto|].
  split; [discriminate | intros [? _]; discriminate].
Qed.

Lemma trimEnd_empty (s : string) :
  trimEnd s = EmptyString <-> whitespaceOnly s.
Proof.
  induction s as [|c s IH]; simpl; [tauto|].
  destruct (trimEnd s) eqn:E.
  - destruct (isWhiteSpace c); split; try tauto; try discriminate.
    intros [? _]; discriminate.
  - split; [discriminate|]. intros [_ Hs]. apply IH in Hs. discriminate.
Qed.

Lemma trimStart_whitespaceOnly (s : string) :
  whitespaceOnly (trimStart s) <-> whitespaceOnly s.
Proof.
  induction s as [|c s IH]; simpl; [tauto|].
  destruct (isWhiteSpace c) eqn:E; simpl; rewrite ?E; [rewrite IH|]; tauto.
Qed.

Lemma trim_empty (s : string) :
  trim s = EmptyString <-> whitespaceOnly s.
Proof. unfold trim. rewrite trimEnd_empty. apply trimStart_whitespaceOnly. Qed.

Lemma truthy_false (s : string) : truthy s = false <-> s = EmptyString.
Proof. destruct s; simpl; split; congruence. Qed.

Lemma truthy_true (s : string) : truthy s = true <-> s <> EmptyString.
Proof. destruct s; simpl; split; congruence. Qed.

Lemma filterFn_matchesRule (text : string) (r : GeoProject) :
  filterFn (toLowerCase text) r = true <-> matchesRule text r.
Proof.
  unfold filterFn, matchesRule, matchesField.
  rewrite !orb_true_iff, !includes_Substring. tauto.
Qed.

(** ** [Array.prototype.sort] *)

Section SortFacts.
Context {A : Type} (cmp : A -> A -> Z).

(** Case analysis on the signs of two comparisons. *)
Ltac sgn_cases u v :=
  destruct (Z.sgn_spec u) as [[? ?]|[[? ?]|[? ?]]];
  destruct (Z.sgn_spec v) as [[? ?]|[[? ?]|[? ?]]]; lia.

Lemma insert_Permutation (x : A) (l : list A) :
  Permutation (x :: l) (JS.insert cmp x l).
Proof.
  induction l as [|y l IH]; simpl; [reflexivity|].
  destruct (cmp x y <=? 0); [reflexivity|].
  rewrite perm_swap. now apply perm_skip.
Qed.

Lemma sort_Permutation (l : list A) : Permutation l (JS.sort cmp l).
Proof.
  induction l as [|x l IH]; simpl; [constructor|].
  rewrite <- insert_Permutation. now apply perm_skip.
Qed.

Lemma sort_length (l : list A) : length (JS.sort cmp l) = length l.
Proof. symmetry. apply Permutation_length, sort_Permutation. Qed.

(** An ascending array is left as it is. *)
Lemma sort_sorted_id (l : list A) :
  StronglySorted (leBy cmp) l -> JS.sort cmp l = l.
Proof.
  induction 1 as [|x l Hs IH Hx]; simpl; [reflexivity|].
  rewrite IH. destruct l as [|y l]; simpl; [reflexivity|].
  inversion Hx as [|? ? Hxy _]; subst. unfold leBy in Hxy.
  apply Z.leb_le in Hxy. now rewrite Hxy.
Qed.

Hypothesis consistent : Consistent cmp.

Lemma cmp_total (a b : A) : 0 < cmp a b -> cmp b a <= 0.
Proof.
  intros Hab. pose proof (cmp_antisym _ consistent a b) as Hs.
  sgn_cases (cmp a b) (cmp b a).
Qed.

Lemma cmp_tie_sym (a b : A) : cmp a b = 0 -> cmp b a = 0.
Proof.
  intros Hab. pose proof (cmp_antisym _ consistent a b) as Hs.
  sgn_cases (cmp a b) (cmp b a).
Qed.

Lemma cmp_refl (a : A) : cmp a a = 0.
Proof.
  pose proof (cmp_antisym _ consistent a a) as Hs.
  sgn_cases (cmp a a) (cmp a a).
Qed.

Lemma insert_StronglySorted (x : A) (l : list A) :
  StronglySorted (leBy cmp) l -> StronglySorted (leBy cmp) (JS.insert cmp x l).
Proof.
  induction 1 as [|y l Hs IH Hy]; simpl.
  - repeat constructor.
  - destruct (cmp x y <=? 0) eqn:E.
    + apply Z.leb_le in E. constructor; [now constructor|].
      constructor; [exact E|].
      eapply Forall_impl; [exact Hy|]. intros z Hyz.
      unfold leBy in *. eapply (cmp_trans _ consistent); eassumption.
    + apply Z.leb_gt in E. constructor; [exact IH|].
      rewrite <- insert_Permutation. constructor; [|exact Hy].
      now apply cmp_total.
Qed.

Lemma sort_StronglySorted (l : list A) :
  StronglySorted (leBy cmp) (JS.sort cmp l).
Proof.
  induction l as [|x l IH]; simpl; [constructor|].
  now apply insert_StronglySorted.
Qed.

(** An element inserted behind [y] is not tied with anything tied with
    [y], so ties never change places. *)
Lemma insert_tiedWith (z x : A) (l : list A) :
  tiedWith cmp z (JS.insert cmp x l) = tiedWith cmp z (x :: l).
Proof.
  induction l as [|y l IH]; [reflexivity|].
  cbn [JS.insert]. destruct (cmp x y <=? 0) eqn:E; [reflexivity|].
  apply Z.leb_gt in E.
  unfold tiedWith in *. cbn [List.filter] in *. rewrite IH.
  destruct (cmp z x =? 0) eqn:Ex; destruct (cmp z y =? 0) eqn:Ey; try reflexivity.
  apply Z.eqb_eq in Ex, Ey. exfalso.
  apply cmp_tie_sym in Ex.
  assert (cmp x y <= 0) by (eapply (cmp_trans _ consistent x z y); lia).
  lia.
Qed.

Lemma sort_tiedWith (z : A) (l : list A) :
  tiedWith cmp z (JS.sort cmp l) = tiedWith cmp z l.
Proof.
  induction l as [|x l IH]; [reflexivity|].
  cbn [JS.sort]. rewrite insert_tiedWith.
  unfold tiedWith in *. cbn [List.filter]. now rewrite IH.
Qed.

Lemma sort_StableSortOf (l : list A) : StableSortOf cmp l (JS.sort cmp l).
Proof.
  split; [apply sort_Permutation|].
  split; [apply sort_StronglySorted|].
  intros x. apply sort_tiedWith.
Qed.

Lemma sort_idempotent (l : list A) :
  JS.sort cmp (JS.sort cmp l) = JS.sort cmp l.
Proof. apply sort_sorted_id, sort_StronglySorted. Qed.

(** Two ascending arrangements of the same elements that order ties alike
    are the same array. *)
Lemma stable_arrangement_unique (l1 l2 : list A) :
  Permutation l1 l2 ->
  StronglySorted (leBy cmp) l1 ->
  StronglySorted (leBy cmp) l2 ->
  (forall x, tiedWith cmp x l1 = tiedWith cmp x l2) ->
  l1 = l2.
Proof.
  revert l2. induction l1 as [|a l1 IH]; intros l2 Hp Hs1 Hs2 Ht.
  - now apply Permutation_nil in Hp.
  - destruct l2 as [|b l2].
    { symmetry in Hp. now apply Permutation_nil in Hp. }
    inversion Hs1 as [|? ? Hs1' Ha]; subst.
    inversion Hs2 as [|? ? Hs2' Hb]; subst.
    assert (Hab : cmp a b <= 0).
    { assert (Hin : In b (a :: l1))
        by (eapply Permutation_in; [symmetry; exact Hp | now left]).
      destruct Hin as [->|Hin]; [rewrite cmp_refl; lia|].
      rewrite Forall_forall in Ha. apply Ha. now apply list_elem_of_In. }
    assert (Hba : cmp b a <= 0).
    { assert (Hin : In a (b :: l2))
        by (eapply Permutation_in; [exact Hp | now left]).
      destruct Hin as [->|Hin]; [rewrite cmp_refl; lia|].
      rewrite Forall_forall in Hb. apply Hb. now apply list_elem_of_In. }
    assert (Htie : cmp a b = 0).
    { pose proof (cmp_antisym _ consistent a b) as Hsg.
      sgn_cases (cmp a b) (cmp b a). }
    assert (a = b) as <-.
    { pose proof (Ht a) as Hta. unfold tiedWith in Hta. cbn [List.filter] in Hta.
      rewrite cmp_refl, Htie in Hta. simpl in Hta. congruence. }
    f_equal. apply IH; auto.
    + now apply Permutation_cons_inv in Hp.
    + intros x. pose proof (Ht x) as Htx.
      unfold tiedWith in *. cbn [List.filter] in Htx.
      destruct (cmp x a =? 0); congruence.
Qed.

(** Whatever algorithm the host uses, a stable sort returns what [JS.sort]
    returns. *)
Lemma StableSortOf_unique (l l' : list A) :
  StableSortOf cmp l l' -> l' = JS.sort cmp l.
Proof.
  intros (Hp & Hs & Ht). apply stable_arrangement_unique.
  - rewrite <- Hp. apply sort_Permutation.
  - exact Hs.
  - apply sort_StronglySorted.
  - intros x. now rewrite Ht, sort_tiedWith.
Qed.

End SortFacts.

(** Being a stable sort only depends on the signs the comparator returns. *)
Lemma StableSortOf_sgn {A} (cmp cmp' : A -> A -> Z) (l l' : list A) :
  (forall a b, Z.sgn (cmp' a b) = Z.sgn (cmp a b)) ->
  StableSortOf cmp l l' -> StableSortOf cmp' l l'.
Proof.
  intros Hsgn (Hp & Hs & Ht). split; [exact Hp|]. split.
  - clear Ht Hp. induction Hs as [|x t Hs IH Hx]; constructor; [exact IH|].
    eapply Forall_impl; [exact Hx|]. intros y Hxy.
    unfold leBy in *. specialize (Hsgn x y). lia.
  - intros x. specialize (Ht x). unfold tiedWith in *.
    assert (E : forall t, List.filter (fun y => cmp' x y =? 0) t =
                          List.filter (fun y => cmp x y =? 0) t).
    { intros t. apply filter_ext. intros y. specialize (Hsgn x y).
      destruct (Z.eqb_spec (cmp' x y) 0); destruct (Z.eqb_spec (cmp x y) 0);
        try reflexivity; lia. }
    now rewrite !E.
Qed.

(** ** The comparator of [fetchProjects] *)

Section CompareFacts.
Context `{Collator}.

Lemma compareFn_asc (key : Key) (a b : GeoProject) :
  compareFn key (Some asc) a b = keyCompare key a b.
Proof. destruct key; reflexivity. Qed.

Lemma compareFn_not_asc (key : Key) (sortOrder : option SortOrder) (a b : GeoProject) :
  isAsc sortOrder = false ->
  compareFn key sortOrder a b = keyCompare key b a.
Proof. intros E. unfold compareFn. destruct key; simpl; now rewrite E. Qed.

Lemma compareFn_desc (key : Key) (a b : GeoProject) :
  compareFn key (Some desc) a b = keyCompare key b a.
Proof. now apply compareFn_not_asc. Qed.

Lemma keyCompare_Consistent (key : Key) : Consistent (keyCompare key).
Proof.
  split; destruct key; simpl; intros;
    try apply localeCompare_antisym;
    try (eapply localeCompare_trans; eassumption);
    lia.
Qed.

Lemma flip_Consistent {A} (cmp : A -> A -> Z) :
  Consistent cmp -> Consistent (fun a b => cmp b a).
Proof.
  intros [Ha Ht]. split.
  - intros a b. apply Ha.
  - intros a b c Hab Hbc. eapply Ht; eassumption.
Qed.

Lemma Consistent_ext {A} (cmp cmp' : A -> A -> Z) :
  (forall a b, cmp' a b = cmp a b) -> Consistent cmp -> Consistent cmp'.
Proof.
  intros E [Ha Ht]. split.
  - intros a b. rewrite !E. apply Ha.
  - intros a b c. rewrite !E. apply Ht.
Qed.

Lemma compareFn_Consistent (key : Key) (sortOrder : option SortOrder) :
  Consistent (compareFn key sortOrder).
Proof.
  destruct (isAsc sortOrder) eqn:E.
  - destruct sortOrder as [[|]|]; try discriminate.
    eapply Consistent_ext; [apply compareFn_asc | apply keyCompare_Consistent].
  - eapply Consistent_ext; [intros; now apply compareFn_not_asc|].
    apply flip_Consistent, keyCompare_Consistent.
Qed.

(** [desc] reverses the result of the comparator. *)
Lemma compareFn_desc_reverses (key : Key) (a b : GeoProject) :
  Z.sgn (compareFn key (Some desc) a b) = - Z.sgn (compareFn key (Some asc) a b).
Proof.
  rewrite compareFn_desc, compareFn_asc.
  apply (cmp_antisym _ (keyCompare_Consistent key)).
Qed.

End CompareFacts.

(** ** [Array.prototype.slice] *)

Section SliceFacts.
Context {A : Type}.

(** With a start inside [0, ∞) and a non-negative count, [slice] is the
    window of the array, clipped to its length. *)
Lemma slice_window (start n : Z) (l : list A) :
  0 <= start -> 0 <= n ->
  JS.slice start (start + n) l = window (Z.to_nat start) (Z.to_nat (start + n)) l.
Proof.
  intros Hs Hn. unfold JS.slice, window, relativeIndex.
  destruct (start <? 0) eqn:E1; [apply Z.ltb_lt in E1; lia|].
  destruct (start + n <? 0) eqn:E2; [apply Z.ltb_lt in E2; lia|].
  destruct (Z.le_gt_cases (Z.of_nat (length l)) start) as [Hge|Hlt].
  - rewrite (drop_ge l (Z.to_nat start)) by lia.
    rewrite drop_ge by lia. now rewrite !take_nil.
  - rewrite (Z.min_l start) by lia.
    destruct (Z.le_gt_cases (start + n) (Z.of_nat (length l))) as [Hin|Hout].
    + rewrite Z.min_l by lia. f_equal. lia.
    + rewrite Z.min_r by lia.
      rewrite (take_ge _ (Z.to_nat (start + n) - Z.to_nat start))
        by (rewrite length_drop; lia).
      apply take_ge. rewrite length_drop. lia.
Qed.

Lemma window_length (lo hi : nat) (l : list A) :
  length (window lo hi l) = Nat.min (hi - lo) (length l - lo).
Proof. unfold window. now rewrite length_take, length_drop. Qed.

Lemma slice_length (start n : Z) (l : list A) :
  0 <= start -> 0 <= n ->
  Z.of_nat (length (JS.slice start (start + n) l)) =
  Z.min n (Z.max 0 (Z.of_nat (length l) - start)).
Proof.
  intros Hs Hn. rewrite slice_window, window_length by assumption. lia.
Qed.

(** A start at or beyond the end gives the empty array, whatever the end. *)
Lemma slice_past_end (start end_ : Z) (l : list A) :
  Z.of_nat (length l) <= start -> JS.slice start end_ l = [].
Proof.
  intros Hge. unfold JS.slice, relativeIndex.
  destruct (start <? 0) eqn:E1; [apply Z.ltb_lt in E1; lia|].
  rewrite (Z.min_r start) by lia.
  rewrite drop_ge by lia. apply take_nil.
Qed.

Lemma slice_nil (start end_ : Z) : JS.slice start end_ (@nil A) = [].
Proof. unfold JS.slice. now rewrite drop_nil, take_nil. Qed.

End SliceFacts.

(** ** Running [fetchProjects] on a store *)

Lemma contents_alloc (h : list (list GeoProject)) (a : list GeoProject) (l : loc) :
  contents (h ++ [a]) l = if decide (l = length h) then a else contents h l.
Proof.
  unfold contents. destruct (decide (l = length h)) as [->|Hne].
  - now rewrite list_lookup_middle.
  - destruct (decide (l < length h)%nat) as [Hlt|Hge].
    + now rewrite lookup_app_l.
    + rewrite !(proj2 (lookup_ge_None _ _)); [reflexivity | lia |].
      rewrite length_app. simpl. lia.
Qed.

Lemma contents_dangling (h : list (list GeoProject)) (l : loc) :
  (length h <= l)%nat -> contents h l = [].
Proof. intros Hge. unfold contents. now rewrite (proj2 (lookup_ge_None _ _)). Qed.

Lemma write_last (h : list (list GeoProject)) (a b : list GeoProject) :
  <[length h := b]> (h ++ [a]) = h ++ [b].
Proof.
  rewrite insert_app_r_alt by lia. now rewrite Nat.sub_diag.
Qed.

Lemma Holds_alloc_new (h : list (list GeoProject)) (a : list GeoProject) :
  Holds (h ++ [a]) (length h) a.
Proof.
  split.
  - rewrite contents_alloc. now rewrite decide_True.
  - left. rewrite length_app. simpl. lia.
Qed.

Lemma Holds_after_alloc h d arr a :
  Holds h d arr -> (arr = [] -> a = []) -> contents (h ++ [a]) d = arr.
Proof.
  intros [Hc [Hlt | ->]] Ha; rewrite contents_alloc.
  - rewrite decide_False by lia. exact Hc.
  - destruct (decide (d = length h)); [now apply Ha | exact Hc].
Qed.

Section Run.
Context `{Collator}.
Variable generateMockData : list GeoProject.

Lemma getMockData_run (st : Store) :
  exists d k,
    getMockData generateMockData st =
      (d, {| heap := heap st ++ k; cachedData := Some d |}) /\
    Holds (heap st ++ k) d (snapshot generateMockData st) /\
    match cachedData st with
    | Some l => d = l /\ k = []
    | None => d = length (heap st) /\ k = [generateMockData]
    end.
Proof.
  destruct st as [h [l|]]; unfold getMockData, snapshot, bind; simpl.
  - exists l, []. rewrite app_nil_r. repeat split.
    destruct (decide (l < length h)%nat); [now left | right].
    apply contents_dangling. lia.
  - exists (length h), [generateMockData]. repeat split.
    + now rewrite contents_alloc, decide_True.
    + left. rewrite length_app. simpl. lia.
Qed.

Lemma filter_run (filterText : option string) h c d arr :
  Holds h d arr ->
  exists d' k,
    match filterText with
    | Some text =>
        if truthy (trim text)
        then Array_filter (filterFn (toLowerCase text)) d
        else ret d
    | None => ret d
    end {| heap := h; cachedData := c |} =
      (d', {| heap := h ++ k; cachedData := c |}) /\
    Holds (h ++ k) d' (filterStep filterText arr).
Proof.
  intros Hd. unfold filterStep.
  destruct filterText as [text|]; [destruct (truthy (trim text))|].
  - exists (length h), [List.filter (filterFn (toLowerCase text)) arr].
    unfold Array_filter, bind, readArray, allocArray. simpl.
    destruct Hd as [-> _]. split; [reflexivity | apply Holds_alloc_new].
  - exists d, []. rewrite app_nil_r. now split.
  - exists d, []. rewrite app_nil_r. now split.
Qed.

Lemma sort_run (sortBy : option Key) (sortOrder : option SortOrder) h c d arr :
  Holds h d arr ->
  exists d' k,
    match sortBy with
    | Some key =>
        copy <- Array_spread d ;;
        Array_sort (compareFn key sortOrder) copy
    | None => ret d
    end {| heap := h; cachedData := c |} =
      (d', {| heap := h ++ k; cachedData := c |}) /\
    Holds (h ++ k) d' (sortStep sortBy sortOrder arr).
Proof.
  intros Hd. unfold sortStep. destruct sortBy as [key|].
  - exists (length h), [JS.sort (compareFn key sortOrder) arr].
    unfold Array_spread, Array_sort, bind, readArray, allocArray, writeArray, ret.
    simpl. destruct Hd as [-> _].
    rewrite contents_alloc, decide_True by reflexivity. rewrite write_last.
    split; [reflexivity | apply Holds_alloc_new].
  - exists d, []. rewrite app_nil_r. now split.
Qed.

Lemma paginate_run (page pageSize : Z) h c d arr :
  Holds h d arr ->
  (paginatedData <- Array_slice ((page - 1) * pageSize)
                      ((page - 1) * pageSize + pageSize) d ;;
   items <- readArray paginatedData ;;
   len <- Array_length d ;;
   ret {| ApiResponse.data := items;
          ApiResponse.total := len;
          ApiResponse.page := page;
          ApiResponse.pageSize := pageSize |})
    {| heap := h; cachedData := c |} =
  ({| ApiResponse.data := pageStep page pageSize arr;
      ApiResponse.total := Z.of_nat (length arr);
      ApiResponse.page := page;
      ApiResponse.pageSize := pageSize |},
   {| heap := h ++ [pageStep page pageSize arr]; cachedData := c |}).
Proof.
  intros Hd.
  unfold Array_slice, Array_length, bind, readArray, allocArray, ret, pageStep.
  simpl. pose proof Hd as [Hc _]. rewrite Hc.
  rewrite contents_alloc, decide_True by reflexivity.
  rewrite (Holds_after_alloc _ _ _ _ Hd); [reflexivity|].
  intros ->. apply slice_nil.
Qed.

(** One run of [fetchProjects]: the response is computed from the snapshot,
    and the store only grows. *)
Lemma fetchProjects_run (page pageSize : Z) (sortBy : option Key)
    (sortOrder : option SortOrder) (filterText : option string) (st : Store) :
  let full := fullSequence sortBy sortOrder filterText
                (snapshot generateMockData st) in
  exists d k,
    fetchProjects generateMockData page pageSize sortBy sortOrder filterText st =
      ({| ApiResponse.data := pageStep page pageSize full;
          ApiResponse.total := Z.of_nat (length full);
          ApiResponse.page := page;
          ApiResponse.pageSize := pageSize |},
       {| heap := heap st ++ k; cachedData := Some d |}) /\
    match cachedData st with
    | Some l => d = l
    | None => d = length (heap st) /\ exists k', k = generateMockData :: k'
    end.
Proof.
  intros full.
  destruct (getMockData_run st) as (d & k0 & E0 & H0 & Hc).
  destruct (filter_run filterText _ (Some d) _ _ H0) as (d1 & k1 & E1 & H1).
  destruct (sort_run sortBy sortOrder _ (Some d) _ _ H1) as (d2 & k2 & E2 & H2).
  pose proof (paginate_run page pageSize _ (Some d) _ _ H2) as E3.
  exists d, (k0 ++ k1 ++ k2 ++ [pageStep page pageSize full]). split.
  - unfold fetchProjects. unfold bind at 1. rewrite E0.
    unfold bind at 1. rewrite E1.
    unfold bind at 1. rewrite E2.
    rewrite E3. unfold full, fullSequence. f_equal. f_equal.
    now rewrite <- !app_assoc.
  - destruct (cachedData st); destruct Hc as [-> ->]; [reflexivity|].
    split; [reflexivity|]. simpl. eauto.
Qed.

End Run.

(** ** The response and the store after a call *)

Section Responses.
Context `{Collator}.
Variable generateMockData : list GeoProject.

Lemma fetchProjects_response (page pageSize : Z) (sortBy : option Key)
    (sortOrder : option SortOrder) (filterText : option string) (st : Store) :
  fst (fetchProjects generateMockData page pageSize sortBy sortOrder filterText st) =
  let full := fullSequence sortBy sortOrder filterText
                (snapshot generateMockData st) in
  {| ApiResponse.data := pageStep page pageSize full;
     ApiResponse.total := Z.of_nat (length full);
     ApiResponse.page := page;
     ApiResponse.pageSize := pageSize |}.
Proof.
  destruct (fetchProjects_run generateMockData page pageSize sortBy sortOrder
              filterText st) as (d & k & E & _).
  now rewrite E.
Qed.

Lemma fetchProjects_store (page pageSize : Z) (sortBy : option Key)
    (sortOrder : option SortOrder) (filterText : option string) (st : Store) :
  let st' := snd (fetchProjects generateMockData page pageSize sortBy sortOrder
                    filterText st) in
  (exists k, heap st' = heap st ++ k) /\
  (forall l, cachedData st = Some l -> cachedData st' = Some l) /\
  (wf st -> wf st' /\ snapshot generateMockData st' = snapshot generateMockData st).
Proof.
  destruct (fetchProjects_run generateMockData page pageSize sortBy sortOrder
              filterText st) as (d & k & E & Hc).
  rewrite E. cbn [snd heap cachedData]. split; [eauto|]. split.
  - intros l El. rewrite El in Hc. now subst.
  - unfold wf, snapshot. cbn [heap cachedData]. rewrite length_app.
    destruct (cachedData st) as [l|].
    + subst d. intros Hl. split; [lia|].
      unfold contents. now rewrite lookup_app_l.
    + destruct Hc as (-> & k' & ->). intros _. split; [simpl; lia|].
      unfold contents. now rewrite list_lookup_middle.
Qed.

Lemma sortStep_length (sortBy : option Key) (sortOrder : option SortOrder)
    (l : list GeoProject) :
  length (sortStep sortBy sortOrder l) = length l.
Proof. destruct sortBy; [apply sort_length | reflexivity]. Qed.

Lemma sortStep_Permutation (sortBy : option Key) (sortOrder : option SortOrder)
    (l : list GeoProject) :
  Permutation l (sortStep sortBy sortOrder l).
Proof. destruct sortBy; [apply sort_Permutation | reflexivity]. Qed.

Lemma filterStep_blank (filterText : option string) (l : list GeoProject) :
  (filterText = None \/ exists text, filterText = Some text /\ whitespaceOnly text) ->
  filterStep filterText l = l.
Proof.
  intros [->|(text & -> & Hw)]; [reflexivity|].
  unfold filterStep. apply trim_empty in Hw. now rewrite Hw.
Qed.

Lemma filterStep_In (text : string) (l : list GeoProject) (r : GeoProject) :
  trim text <> EmptyString ->
  In r (filterStep (Some text) l) <-> In r l /\ matchesRule text r.
Proof.
  intros Ht. unfold filterStep. apply truthy_true in Ht. rewrite Ht.
  now rewrite filter_In, filterFn_matchesRule.
Qed.

Lemma pageStep_In (page pageSize : Z) (l : list GeoProject) (r : GeoProject) :
  In r (pageStep page pageSize l) -> In r l.
Proof.
  unfold pageStep, JS.slice. rewrite <- !list_elem_of_In. intros Hin.
  now apply subseteq_take, subseteq_drop in Hin.
Qed.

End Responses.

(** For a positive page size, a page is past the last one exactly when its
    number exceeds the [totalPages] of [DataTable.tsx]. *)
Lemma pastLastPage_totalPages (page pageSize total : Z) :
  0 < pageSize ->
  (pastLastPage page pageSize total <->
   exists n, totalPages total pageSize = Some n /\ n < page).
Proof.
  intros Hs. unfold pastLastPage, totalPages.
  destruct (Z.eqb_spec pageSize 0) as [E|_]; [lia|].
  pose proof (Z.div_mod (- total) pageSize ltac:(lia)) as Hdm.
  pose proof (Z.mod_pos_bound (- total) pageSize Hs) as Hb.
  split.
  - intros Hle. eexists. split; [reflexivity|]. nia.
  - intros (n & [= <-] & Hn). nia.
Qed.

(** ** The query function *)

Section Query.
Context `{Collator}.
Variable generateMockData : list GeoProject.

Abbreviation fetch := (fetchProjects generateMockData).
Abbreviation cached := (snapshot generateMockData).

(** C1.  With a filter text that is not empty once trimmed, the filter step
    keeps exactly the records that match the case-insensitive substring rule
    on their name, status or id; every record of the response is one of
    them, and the total counts them.  With a filter text that is missing,
    empty or all white space, the filter step keeps every record. *)
Theorem fetchProjects_filter_rule (st : Store) (page pageSize : Z)
    (sortBy : option Key) (sortOrder : option SortOrder)
    (filterText : option string) :
  let records := cached st in
  let resp := fst (fetch page pageSize sortBy sortOrder filterText st) in
  (forall text, filterText = Some text -> trim text <> EmptyString ->
     (forall r, In r (ApiResponse.data resp) -> In r records /\ matchesRule text r) /\
     (forall r, In r (filterStep filterText records) <->
                In r records /\ matchesRule text r) /\
     ApiResponse.total resp = Z.of_nat (length (filterStep filterText records))) /\
  ((filterText = None \/
    exists text, filterText = Some text /\ whitespaceOnly text) ->
     filterStep filterText records = records /\
     ApiResponse.total resp = Z.of_nat (length records)).
Proof.
  intros records resp. unfold resp. rewrite fetchProjects_response.
  cbn [ApiResponse.data ApiResponse.total]. unfold fullSequence. split.
  - intros text -> Ht. split; [|split].
    + intros r Hin. apply pageStep_In in Hin.
      apply (Permutation_in _ (Permutation_sym (sortStep_Permutation _ _ _))) in Hin.
      apply filterStep_In in Hin; [exact Hin | exact Ht].
    + intros r. now apply filterStep_In.
    + now rewrite sortStep_length.
  - intros Hb. rewrite sortStep_length. subst records.
    rewrite (filterStep_blank _ _ Hb). split; reflexivity.
Qed.

(** C2.  For a page of at least 1 and a page size that is a count (not
    negative, as is every size the table offers), the items are the
    positions [(page-1)*pageSize, page*pageSize) of the filtered and sorted
    sequence, clipped to its length, the total is the length of that
    sequence, and the number of items is
    [min(pageSize, max(0, total - (page-1)*pageSize))]. *)
Theorem fetchProjects_page_window (st : Store) (page pageSize : Z)
    (sortBy : option Key) (sortOrder : option SortOrder)
    (filterText : option string) :
  1 <= page -> 0 <= pageSize ->
  let full := fullSequence sortBy sortOrder filterText (cached st) in
  let resp := fst (fetch page pageSize sortBy sortOrder filterText st) in
  ApiResponse.total resp = Z.of_nat (length full) /\
  paginationLaw resp full page pageSize.
Proof.
  intros Hp Hs full resp. unfold resp, paginationLaw.
  rewrite fetchProjects_response. cbn [ApiResponse.data ApiResponse.total].
  fold full. split; [reflexivity|]. unfold pageStep.
  assert (0 <= (page - 1) * pageSize) by nia.
  split.
  - rewrite slice_window by assumption. f_equal. f_equal. lia.
  - now apply slice_length.
Qed.

(** C4.  The response is a page of a full sequence that, for a sort key, is
    the stable sort of the filtered records under the comparator of the
    key (locale order on a string field, numeric difference on a numeric
    one, the result reversed for [desc]), and that, without a sort key, is
    the filtered records in the order they had. *)
Theorem fetchProjects_stable_sort (st : Store) (page pageSize : Z)
    (sortBy : option Key) (sortOrder : SortOrder) (filterText : option string) :
  let filtered := filterStep filterText (cached st) in
  let resp := fst (fetch page pageSize sortBy (Some sortOrder) filterText st) in
  exists full,
    ApiResponse.data resp = pageStep page pageSize full /\
    ApiResponse.total resp = Z.of_nat (length full) /\
    match sortBy with
    | Some key => StableSortOf (orderedCompare key sortOrder) filtered full
    | None => full = filtered
    end.
Proof.
  intros filtered resp. unfold resp. rewrite fetchProjects_response.
  cbn [ApiResponse.data ApiResponse.total]. unfold fullSequence. fold filtered.
  eexists. split; [reflexivity|]. split; [reflexivity|].
  destruct sortBy as [key|]; [|reflexivity]. cbn [sortStep].
  eapply StableSortOf_sgn;
    [|apply sort_StableSortOf, (compareFn_Consistent key (Some sortOrder))].
  intros a b. unfold orderedCompare.
  destruct sortOrder; [now rewrite compareFn_asc|].
  rewrite compareFn_desc.
  pose proof (cmp_antisym _ (keyCompare_Consistent key) a b). lia.
Qed.

(** C5.  A page of at least 1 whose start lies at or beyond the end of the
    filtered sequence gets an empty array of items, while the total is
    still the number of filtered records, whatever the page size is; for a
    positive page size these are the pages above
    [Math.ceil(total / pageSize)].  With 5000 records, no filter, page 101
    and page size 50 the items are empty and the total is 5000.  The
    function is total: there is no failure to report. *)
Theorem fetchProjects_page_out_of_range :
  (forall (st : Store) (page pageSize : Z) (sortBy : option Key)
          (sortOrder : option SortOrder) (filterText : option string),
     let filtered := filterStep filterText (cached st) in
     let resp := fst (fetch page pageSize sortBy sortOrder filterText st) in
     1 <= page ->
     pastLastPage page pageSize (Z.of_nat (length filtered)) ->
     ApiResponse.data resp = [] /\
     ApiResponse.total resp = Z.of_nat (length filtered)) /\
  (forall (st : Store) (page pageSize pages : Z) (sortBy : option Key)
          (sortOrder : option SortOrder) (filterText : option string),
     let filtered := filterStep filterText (cached st) in
     let resp := fst (fetch page pageSize sortBy sortOrder filterText st) in
     1 <= page -> 0 < pageSize ->
     totalPages (Z.of_nat (length filtered)) pageSize = Some pages ->
     pages < page ->
     ApiResponse.data resp = [] /\
     ApiResponse.total resp = Z.of_nat (length filtered)) /\
  (forall (st : Store) (sortBy : option Key) (sortOrder : option SortOrder),
     length (cached st) = 5000%nat ->
     let resp := fst (fetch 101 50 sortBy sortOrder None st) in
     ApiResponse.data resp = [] /\ ApiResponse.total resp = 5000).
Proof.
  assert (Hgen : forall st page pageSize sortBy sortOrder filterText,
             pastLastPage page pageSize
               (Z.of_nat (length (filterStep filterText (cached st)))) ->
             ApiResponse.data (fst (fetch page pageSize sortBy sortOrder filterText st)) = [] /\
             ApiResponse.total (fst (fetch page pageSize sortBy sortOrder filterText st)) =
               Z.of_nat (length (filterStep filterText (cached st)))).
  { intros st page pageSize sortBy sortOrder filterText Hpast.
    rewrite fetchProjects_response. cbn [ApiResponse.data ApiResponse.total].
    unfold fullSequence. rewrite sortStep_length. split; [|reflexivity].
    unfold pageStep. apply slice_past_end. rewrite sortStep_length. exact Hpast. }
  split; [|split].
  - intros st page pageSize sortBy sortOrder filterText filtered resp _ Hpast.
    now apply Hgen.
  - intros st page pageSize pages sortBy sortOrder filterText filtered resp
      _ Hsize Hpages Hlt.
    apply Hgen. apply pastLastPage_totalPages; [exact Hsize | eauto].
  - intros st sortBy sortOrder Hlen resp.
    destruct (Hgen st 101 50 sortBy sortOrder None) as [Hd Ht].
    + unfold pastLastPage. cbn [filterStep]. lia.
    + split; [exact Hd|]. unfold resp. rewrite Ht. cbn [filterStep]. lia.
Qed.

(** C9.  Sorting twice with the same key and order gives what sorting once
    gives, on values and on an array sorted in place. *)
Theorem sortStep_idempotent (sortBy : option Key) (sortOrder : option SortOrder)
    (records : list GeoProject) :
  sortStep sortBy sortOrder (sortStep sortBy sortOrder records) =
  sortStep sortBy sortOrder records /\
  forall (key : Key) (l : loc) (st : Store),
    snd ((Array_sort (compareFn key sortOrder) l ;;;
          Array_sort (compareFn key sortOrder) l) st) =
    snd (Array_sort (compareFn key sortOrder) l st).
Proof.
  split.
  - destruct sortBy as [key|]; [|reflexivity].
    apply sort_idempotent, compareFn_Consistent.
  - intros key l [h c].
    unfold Array_sort, bind, readArray, writeArray, ret. cbn.
    f_equal. unfold contents.
    destruct (decide (l < length h)%nat) as [Hlt|Hge].
    + rewrite list_lookup_insert_eq by exact Hlt. cbn.
      rewrite list_insert_insert_eq.
      now rewrite (sort_idempotent _ (compareFn_Consistent key sortOrder)).
    + repeat rewrite (list_insert_ge h l) by lia. reflexivity.
Qed.

(** C10.  A call leaves every array of the store as it was, the cached one
    included: the heap only grows, [cachedData] keeps naming the same array
    with the same records in the same order, and a later query answers as
    if the earlier one had not run. *)
Theorem fetchProjects_cache_unchanged (st : Store) (page pageSize : Z)
    (sortBy : option Key) (sortOrder : option SortOrder)
    (filterText : option string) :
  wf st ->
  let st' := snd (fetch page pageSize sortBy sortOrder filterText st) in
  wf st' /\
  (exists k, heap st' = heap st ++ k) /\
  (forall l, cachedData st = Some l ->
     cachedData st' = Some l /\ heap st' !! l = heap st !! l) /\
  cached st' = cached st /\
  (exists l, cachedData st' = Some l /\ contents (heap st') l = cached st) /\
  (forall page2 pageSize2 sortBy2 sortOrder2 filterText2,
     fst (fetch page2 pageSize2 sortBy2 sortOrder2 filterText2 st') =
     fst (fetch page2 pageSize2 sortBy2 sortOrder2 filterText2 st)).
Proof.
  intros Hwf st'.
  destruct (fetchProjects_store generateMockData page pageSize sortBy sortOrder
              filterText st) as ((k & Hk) & Hc & Hs).
  destruct (Hs Hwf) as [Hwf' Hsnap]. fold st' in Hk, Hc, Hwf', Hsnap.
  split; [exact Hwf'|]. split; [eauto|]. split; [|split; [|split]].
  - intros l El. split; [now apply Hc|].
    rewrite Hk. apply lookup_app_l. unfold wf in Hwf. now rewrite El in Hwf.
  - exact Hsnap.
  - destruct (fetchProjects_run generateMockData page pageSize sortBy sortOrder
                filterText st) as (d & k' & E & _).
    exists d. rewrite <- Hsnap. unfold st', snapshot. rewrite E. now cbn.
  - intros. rewrite !fetchProjects_response. now rewrite Hsnap.
Qed.

End Query.

(** A missing sort order sorts as [desc] does. *)
Lemma sortStep_missing_order `{Collator} (sortBy : option Key)
    (records : list GeoProject) :
  sortStep sortBy None records = sortStep sortBy (Some desc) records.
Proof. reflexivity. Qed.

Lemma fetchProjects_page_window_witness :
  let st := storeOf [sampleA; sampleB] in
  let full := fullSequence (H := codeUnitCollator) None None None (snapshot [] st) in
  let resp := fst (fetchProjects (H := codeUnitCollator) [] 2 1 None None None st) in
  ApiResponse.total resp = Z.of_nat (length full) /\
  paginationLaw resp full 2 1.
Proof.
  apply (fetchProjects_page_window (H := codeUnitCollator) []
           (storeOf [sampleA; sampleB]) 2 1 None None None); lia.
Defined.

Lemma fetchProjects_filter_rule_witness :
  In sampleA [sampleA; sampleB] /\ matchesRule "SOLAR" sampleA.
Proof.
  destruct (fetchProjects_filter_rule (H := codeUnitCollator) [sampleA; sampleB]
              emptyStore 1 10 None None (Some "SOLAR")) as [Hmatch _].
  destruct (Hmatch "SOLAR" eq_refl) as [Hin _].
  - vm_compute. discriminate.
  - apply Hin. vm_compute. left. reflexivity.
Defined.

Lemma fetchProjects_page_out_of_range_witness :
  ApiResponse.data
    (fst (fetchProjects (H := codeUnitCollator) [] 3 1 None None None
            (storeOf [sampleA; sampleB]))) = [] /\
  ApiResponse.total
    (fst (fetchProjects (H := codeUnitCollator) [] 3 1 None None None
            (storeOf [sampleA; sampleB]))) = 2.
Proof.
  destruct (fetchProjects_page_out_of_range (H := codeUnitCollator) [])
    as (_ & Hpages & _).
  apply (Hpages (storeOf [sampleA; sampleB]) 3 1 2 None None None).
  - lia.
  - lia.
  - reflexivity.
  - lia.
Defined.

Lemma fetchProjects_cache_unchanged_witness :
  snapshot [sampleA; sampleB]
    (snd (fetchProjects (H := codeUnitCollator) [sampleA; sampleB] 1 10
            (Some Klatitude) (Some asc) (Some "a") emptyStore)) =
  snapshot [sampleA; sampleB] emptyStore.
Proof.
  destruct (fetchProjects_cache_unchanged (H := codeUnitCollator)
              [sampleA; sampleB] emptyStore 1 10 (Some Klatitude) (Some asc)
              (Some "a")) as (_ & _ & _ & Hsnap & _ & _).
  - exact I.
  - exact Hsnap.
Defined.

(** ** The hook *)

(** C3.  [loadData] calls [fetchProjects] without the filter text, so two
    hook states that agree on [page], [pageSize], [sortBy] and [sortOrder]
    load the same data and the same total (and leave the same store),
    whatever their filter texts are. *)
Theorem loadData_ignores_filterText `{Collator} (generateMockData : list GeoProject)
    (h1 h2 : HookState) (st : Store) :
  TableState.page (state h1) = TableState.page (state h2) ->
  TableState.pageSize (state h1) = TableState.pageSize (state h2) ->
  TableState.sortBy (state h1) = TableState.sortBy (state h2) ->
  TableState.sortOrder (state h1) = TableState.sortOrder (state h2) ->
  let response :=
    fst (fetchProjects generateMockData
           (TableState.page (state h1)) (TableState.pageSize (state h1))
           (TableState.sortBy (state h1)) (Some (TableState.sortOrder (state h1)))
           None st) in
  let r1 := fst (loadData generateMockData h1 st) in
  let r2 := fst (loadData generateMockData h2 st) in
  data r1 = ApiResponse.data response /\
  total r1 = ApiResponse.total response /\
  data r1 = data r2 /\
  total r1 = total r2 /\
  snd (loadData generateMockData h1 st) = snd (loadData generateMockData h2 st).
Proof.
  intros Hp Hs Hb Ho. unfold loadData, bind, ret. cbn [state].
  rewrite <- Hp, <- Hs, <- Hb, <- Ho.
  destruct (fetchProjects _ _ _ _ _ _ st) as [response st']. cbn.
  repeat split.
Qed.

Lemma loadData_ignores_filterText_witness :
  data (fst (loadData (H := codeUnitCollator) [sampleA; sampleB]
               initialState emptyStore)) =
  data (fst (loadData (H := codeUnitCollator) [sampleA; sampleB]
               (handleSearch "wind" initialState) emptyStore)).
Proof.
  exact (proj1 (proj2 (proj2
    (loadData_ignores_filterText (H := codeUnitCollator) [sampleA; sampleB]
       initialState (handleSearch "wind" initialState) emptyStore
       eq_refl eq_refl eq_refl eq_refl)))).
Defined.

(** C6.  Selecting [A] and then [B] leaves [B] selected and nothing else:
    [A] is no longer selected unless it is [B].  A state holds at most one
    selected id, and a row click and a marker click run the same handler. *)
Theorem handleRowSelect_single_selection (h : HookState) (A B : string) :
  let h' := handleRowSelect B (handleRowSelect A h) in
  selectedId (handleRowSelect A h) = Some A /\
  selectedId h' = Some B /\
  (forall x, selectedId h' = Some x -> x = B) /\
  (A <> B -> selectedId h' <> Some A) /\
  (forall s x y, selectedId s = Some x -> selectedId s = Some y -> x = y) /\
  dispatch (OnRowSelect B) = handleRowSelect B /\
  dispatch (OnMarkerClick B) = handleRowSelect B.
Proof.
  cbn. repeat split; try congruence.
Qed.

Lemma handleRowSelect_single_selection_witness :
  selectedId (handleRowSelect "project-2" (handleRowSelect "project-1" initialState))
    <> Some "project-1".
Proof.
  destruct (handleRowSelect_single_selection initialState "project-1" "project-2")
    as (_ & _ & _ & Hne & _).
  apply Hne. discriminate.
Defined.

(** C7.  [handleSearch] stores the new filter text and [handleSort] the new
    sort column and order, and both set the page to 1, whatever the page
    was. *)
Theorem handleSearch_handleSort_reset_page (h : HookState) (text : string)
    (column : Key) :
  TableState.page (state (handleSearch text h)) = 1 /\
  TableState.filterText (state (handleSearch text h)) = text /\
  TableState.page (state (handleSort column h)) = 1 /\
  TableState.sortBy (state (handleSort column h)) = Some column /\
  TableState.sortOrder (state (handleSort column h)) =
    (if bool_decide (TableState.sortBy (state h) = Some column /\
                     TableState.sortOrder (state h) = asc)
     then desc else asc).
Proof.
  cbn. repeat split.
  - now destruct (bool_decide _).
  - repeat case_bool_decide; try reflexivity; tauto.
Qed.

(** C8, as stated, fails: after a row is selected, changing the page leaves
    its id selected. *)
Lemma handlePageChange_selection_not_cleared :
  let h := handleRowSelect "project-1" initialState in
  selectedId h = Some "project-1" /\
  selectedId (handlePageChange 2 h) = Some "project-1" /\
  selectedId (handlePageChange 2 h) <> None.
Proof. cbn. repeat split. discriminate. Qed.

(** C8, as amended.  [handlePageChange] sets the page and leaves the
    selected id as it was.  The selection only stops being shown: the
    selected project that [App] derives is null as soon as no loaded record
    has the selected id. *)
Theorem handlePageChange_keeps_selection (h : HookState) (page : Z) :
  selectedId (handlePageChange page h) = selectedId h /\
  TableState.page (state (handlePageChange page h)) = page /\
  (forall s sel, selectedId s = Some sel ->
     (forall r, In r (data s) -> id r <> sel) ->
     selectedProject s = None).
Proof.
  cbn. repeat split. intros s sel Es Hn. unfold selectedProject. rewrite Es.
  destruct (truthy sel); [|reflexivity]. unfold JS.find.
  destruct (List.find _ (data s)) as [r|] eqn:E; [|reflexivity].
  apply find_some in E. destruct E as [Hin He].
  apply String.eqb_eq in He. now apply Hn in Hin.
Qed.

Lemma handlePageChange_keeps_selection_witness :
  selectedProject
    {| data := [sampleB]; loading := false; total := 2;
       state := state (handlePageChange 2 initialState);
       selectedId := Some "project-1" |} = None.
Proof.
  destruct (handlePageChange_keeps_selection initialState 2) as (_ & _ & Hnull).
  apply (Hnull _ "project-1").
  - reflexivity.
  - intros r [<-|[]]. discriminate.
Defined.

(** ** The record store *)

(** X1.  The cache wins: once [getMockData] has run, a further call returns the
    same array and leaves the store alone, whatever the generator would
    produce now; a first call stores the generated array at a new
    location. *)
Theorem getMockData_generates_once (generated generated' : list GeoProject)
    (st : Store) :
  let r := getMockData generated st in
  getMockData generated' (snd r) = r /\
  cachedData (snd r) = Some (fst r) /\
  (cachedData st = None ->
     heap (snd r) = heap st ++ [generated] /\
     contents (heap (snd r)) (fst r) = generated) /\
  (forall l, cachedData st = Some l -> r = (l, st)).
Proof.
  destruct st as [h [l|]]; cbn.
  - repeat split; try discriminate. intros l0 [= <-]. reflexivity.
  - repeat split; try discriminate.
    now rewrite contents_alloc, decide_True.
Qed.

Lemma generateMockData_map (drawn : nat -> Drawn) :
  generateMockData drawn = map (generatedProject drawn) (seq 0 5000).
Proof.
  unfold generateMockData.
  assert (Hgen : forall l acc,
             fold_left (fun data i => data ++ [generatedProject drawn i]) l acc =
             acc ++ map (generatedProject drawn) l).
  { induction l as [|i l IH]; intros acc; simpl.
    - now rewrite app_nil_r.
    - rewrite IH. now rewrite <- app_assoc. }
  apply Hgen.
Qed.

Lemma Number_toString_inj (n m : nat) :
  Number_toString n = Number_toString m -> n = m.
Proof.
  unfold Number_toString. intros E.
  apply DecimalNat.Unsigned.to_uint_inj.
  apply (f_equal DecimalString.NilEmpty.uint_of_string) in E.
  rewrite !DecimalString.NilEmpty.usu in E. congruence.
Qed.

Lemma append_inj_r (p s t : string) : p +:+ s = p +:+ t -> s = t.
Proof.
  induction p as [|c p IH]; [trivial|].
  rewrite !append_String. intros [= E]. now apply IH.
Qed.

(** X2.  The generator always returns 5000 records; record [i] is named after
    [i] alone: its id is ["project-"] followed by [i + 1], its name cycles
    through the fifteen names.  No two records share an id. *)
Theorem generateMockData_ids (drawn : nat -> Drawn) :
  length (generateMockData drawn) = 5000%nat /\
  (forall i, (i < 5000)%nat ->
     exists r, generateMockData drawn !! i = Some r /\
       id r = "project-" +:+ Number_toString (i + 1) /\
       projectName r =
         nth (i mod 15) projectNames "" +:+ " " +:+ Number_toString (i / 15 + 1)) /\
  NoDup (map id (generateMockData drawn)).
Proof.
  rewrite generateMockData_map. split; [|split].
  - now rewrite length_map, length_seq.
  - intros i Hi. exists (generatedProject drawn i). split; [|split; reflexivity].
    rewrite list_lookup_fmap. now rewrite lookup_seq_lt.
  - rewrite map_map.
    apply (NoDup_fmap_2_strong _ (seq 0 5000)); [|apply NoDup_seq].
    intros i j _ _ E. cbn [id generatedProject] in E.
    apply append_inj_r, Number_toString_inj in E. lia.
Qed.

Lemma filter_map_length {A B} (p : B -> bool) (f : A -> B) (l : list A) :
  length (List.filter p (map f l)) = length (List.filter (fun x => p (f x)) l).
Proof.
  induction l as [|x l IH]; simpl; [reflexivity|].
  destruct (p (f x)); simpl; now rewrite IH.
Qed.

Lemma solarIndex_filterFn (drawn : nat -> Drawn) (i : nat) :
  filterFn (toLowerCase "Solar") (generatedProject drawn i) = solarIndex i.
Proof.
  unfold filterFn, solarIndex. cbn [projectName id status generatedProject].
  change (toLowerCase "Solar") with "solar".
  assert (Hs : includes (toLowerCase (statusString (drawnStatus (drawn i)))) "solar"
               = false) by (destruct (drawnStatus (drawn i)); reflexivity).
  rewrite Hs. now rewrite orb_false_r.
Qed.

(** X3.  Whatever the generator draws, a first query for "Solar" matches 334
    records: those at the indices that are multiples of 15.  The total is
    334 for every page, page size and sort. *)
Theorem fetchProjects_generated_solar `{Collator} (drawn : nat -> Drawn)
    (page pageSize : Z) (sortBy : option Key) (sortOrder : option SortOrder) :
  let resp := fst (fetchProjects (generateMockData drawn) page pageSize sortBy
                     sortOrder (Some "Solar") emptyStore) in
  ApiResponse.total resp = 334 /\
  forall r, In r (ApiResponse.data resp) ->
    exists i, (i < 5000)%nat /\ (i mod 15 = 0)%nat /\ r = generatedProject drawn i.
Proof.
  intros resp. unfold resp. rewrite fetchProjects_response.
  cbn [ApiResponse.data ApiResponse.total snapshot emptyStore cachedData].
  unfold fullSequence.
  assert (Hfilter : filterStep (Some "Solar") (generateMockData drawn) =
                    List.filter (filterFn (toLowerCase "Solar")) (generateMockData drawn))
    by reflexivity.
  split.
  - rewrite sortStep_length, Hfilter, generateMockData_map, filter_map_length.
    rewrite (filter_ext _ solarIndex) by (intros i; apply solarIndex_filterFn).
    vm_compute. reflexivity.
  - intros r Hin. apply pageStep_In in Hin.
    apply (Permutation_in _ (Permutation_sym (sortStep_Permutation _ _ _))) in Hin.
    rewrite Hfilter, generateMockData_map in Hin.
    apply filter_In in Hin. destruct Hin as [Hin Hm].
    apply in_map_iff in Hin. destruct Hin as (i & <- & Hi).
    apply in_seq in Hi. exists i. split; [lia|]. split; [|reflexivity].
    rewrite solarIndex_filterFn in Hm.
    assert (Hall : forallb (fun j => implb (solarIndex j) (j mod 15 =? 0)%nat)
                     (seq 0 5000) = true) by (vm_compute; reflexivity).
    rewrite forallb_forall in Hall.
    specialize (Hall i ltac:(apply in_seq; lia)).
    rewrite Hm in Hall. simpl in Hall. now apply Nat.eqb_eq in Hall.
Qed.

(** ** How the steps of the query compose *)

Lemma lowerUnit_idempotent (c : ascii) : lowerUnit (lowerUnit c) = lowerUnit c.
Proof. destruct c as [[] [] [] [] [] [] [] []]; reflexivity. Qed.

Lemma toLowerCase_idempotent (s : string) :
  toLowerCase (toLowerCase s) = toLowerCase s.
Proof.
  induction s as [|c s IH]; simpl; [reflexivity|].
  now rewrite lowerUnit_idempotent, IH.
Qed.

Lemma isWhiteSpace_lowerUnit (c : ascii) :
  isWhiteSpace (lowerUnit c) = isWhiteSpace c.
Proof. destruct c as [[] [] [] [] [] [] [] []]; reflexivity. Qed.

Lemma whitespaceOnly_toLowerCase (s : string) :
  whitespaceOnly (toLowerCase s) <-> whitespaceOnly s.
Proof.
  induction s as [|c s IH]; simpl; [tauto|].
  rewrite isWhiteSpace_lowerUnit, IH. tauto.
Qed.

Lemma truthy_trim_toLowerCase (s : string) :
  truthy (trim (toLowerCase s)) = truthy (trim s).
Proof.
  destruct (truthy (trim s)) eqn:E.
  - apply truthy_true. apply truthy_true in E.
    rewrite trim_empty, whitespaceOnly_toLowerCase, <- trim_empty. exact E.
  - apply truthy_false. apply truthy_false in E.
    rewrite trim_empty, whitespaceOnly_toLowerCase, <- trim_empty. exact E.
Qed.

Lemma filterStep_same_lower_case (text text' : string) (l : list GeoProject) :
  toLowerCase text = toLowerCase text' ->
  filterStep (Some text) l = filterStep (Some text') l.
Proof.
  intros E. unfold filterStep.
  rewrite <- (truthy_trim_toLowerCase text), <- (truthy_trim_toLowerCase text').
  now rewrite E.
Qed.

(** X4.  The filter is insensitive to the case of the text: two texts with the
    same lower-case form get the same response. *)
Theorem fetchProjects_text_case `{Collator} (generated : list GeoProject)
    (st : Store) (page pageSize : Z) (sortBy : option Key)
    (sortOrder : option SortOrder) (text text' : string) :
  toLowerCase text = toLowerCase text' ->
  fst (fetchProjects generated page pageSize sortBy sortOrder (Some text) st) =
  fst (fetchProjects generated page pageSize sortBy sortOrder (Some text') st).
Proof.
  intros E. rewrite !fetchProjects_response. unfold fullSequence.
  now rewrite (filterStep_same_lower_case text text' _ E).
Qed.

Lemma fetchProjects_text_case_witness :
  fst (fetchProjects (H := codeUnitCollator) [] 1 10 None None (Some "SOLAR")
         (storeOf [sampleA; sampleB; sampleC])) =
  fst (fetchProjects (H := codeUnitCollator) [] 1 10 None None (Some "Solar")
         (storeOf [sampleA; sampleB; sampleC])).
Proof.
  apply (fetchProjects_text_case (H := codeUnitCollator)). reflexivity.
Defined.

Section SortFilter.
Context {A : Type} (cmp : A -> A -> Z) (p : A -> bool).
Hypothesis consistent : Consistent cmp.

Lemma insert_front (x : A) (l : list A) :
  Forall (leBy cmp x) l -> JS.insert cmp x l = x :: l.
Proof.
  destruct 1 as [|y l Hxy _]; [reflexivity|]. simpl.
  unfold leBy in Hxy. apply Z.leb_le in Hxy. now rewrite Hxy.
Qed.

Lemma filter_insert (x : A) (l : list A) :
  StronglySorted (leBy cmp) l ->
  List.filter p (JS.insert cmp x l) =
  if p x then JS.insert cmp x (List.filter p l) else List.filter p l.
Proof.
  induction 1 as [|y l Hs IH Hy]; [simpl; now destruct (p x)|].
  cbn [JS.insert]. destruct (cmp x y <=? 0) eqn:E.
  - apply Z.leb_le in E. cbn [List.filter].
    destruct (p x) eqn:Ex; [|reflexivity].
    symmetry. apply insert_front.
    assert (Hall : Forall (leBy cmp x) (y :: l)).
    { constructor; [exact E|]. eapply Forall_impl; [exact Hy|].
      intros z Hyz. unfold leBy in *. eapply (cmp_trans _ consistent); eassumption. }
    rewrite Forall_forall in Hall. apply Forall_forall. intros z Hz.
    apply Hall. apply list_elem_of_In. apply list_elem_of_In in Hz.
    change (In z (List.filter p (y :: l))) in Hz.
    apply filter_In in Hz. tauto.
  - cbn [List.filter]. rewrite IH.
    destruct (p y) eqn:Ey; destruct (p x) eqn:Ex; try reflexivity.
    cbn [JS.insert]. now rewrite E.
Qed.

Lemma filter_sort (l : list A) :
  List.filter p (JS.sort cmp l) = JS.sort cmp (List.filter p l).
Proof.
  induction l as [|x l IH]; [reflexivity|].
  cbn [JS.sort List.filter].
  rewrite filter_insert by now apply sort_StronglySorted.
  rewrite IH. now destruct (p x).
Qed.

End SortFilter.

(** X5.  Filtering and sorting commute: sorting the matching records gives what
    filtering the sorted records gives, so the order of the two steps in
    [fetchProjects] shows in no response. *)
Theorem filterStep_sortStep_commute `{Collator} (sortBy : option Key)
    (sortOrder : option SortOrder) (filterText : option string)
    (records : list GeoProject) :
  sortStep sortBy sortOrder (filterStep filterText records) =
  filterStep filterText (sortStep sortBy sortOrder records).
Proof.
  destruct sortBy as [key|]; [|reflexivity].
  unfold filterStep, sortStep.
  destruct filterText as [text|]; [|reflexivity].
  destruct (truthy (trim text)); [|reflexivity].
  symmetry. apply filter_sort, compareFn_Consistent.
Qed.

Lemma pageStep_window_nat (p size : nat) (l : list GeoProject) :
  pageStep (Z.of_nat (S p)) (Z.of_nat size) l = take size (drop (p * size) l).
Proof.
  unfold pageStep. rewrite slice_window by lia. unfold window.
  f_equal; [|f_equal]; nia.
Qed.

Lemma pages_concat (size k : nat) (l : list GeoProject) :
  concat (map (fun p => pageStep (Z.of_nat p) (Z.of_nat size) l) (seq 1 k)) =
  take (k * size) l.
Proof.
  induction k as [|k IH]; [reflexivity|].
  rewrite seq_S, map_app, concat_app, IH. cbn [map concat].
  change (1 + k)%nat with (S k).
  rewrite app_nil_r, (pageStep_window_nat k size l).
  rewrite take_take_drop. f_equal. lia.
Qed.

(** X6.  Pages tile the sequence: for a positive page size, the items of pages
    1 to [k], one after the other, are the first [k * pageSize] records of
    the filtered and sorted sequence, each once and in order; up to the last
    page of [totalPages] they are the whole sequence. *)
Theorem fetchProjects_pages_tile `{Collator} (generated : list GeoProject)
    (st : Store) (pageSize : Z) (sortBy : option Key)
    (sortOrder : option SortOrder) (filterText : option string) :
  0 < pageSize ->
  let full := fullSequence sortBy sortOrder filterText (snapshot generated st) in
  let items p :=
    ApiResponse.data
      (fst (fetchProjects generated (Z.of_nat p) pageSize sortBy sortOrder
              filterText st)) in
  (forall k, concat (map items (seq 1 k)) = take (k * Z.to_nat pageSize) full) /\
  (forall pages,
     totalPages (Z.of_nat (length full)) pageSize = Some pages ->
     concat (map items (seq 1 (Z.to_nat pages))) = full).
Proof.
  intros Hsize full items.
  assert (Hk : forall k,
             concat (map items (seq 1 k)) = take (k * Z.to_nat pageSize) full).
  { intros k. rewrite <- pages_concat. f_equal. apply map_ext. intros p.
    unfold items. rewrite fetchProjects_response. cbn [ApiResponse.data].
    fold full. f_equal. lia. }
  split; [exact Hk|].
  intros pages Hpages. rewrite Hk. apply take_ge.
  unfold totalPages in Hpages.
  destruct (Z.eqb_spec pageSize 0); [lia|]. injection Hpages as <-.
  pose proof (Z.div_mod (- Z.of_nat (length full)) pageSize ltac:(lia)).
  pose proof (Z.mod_pos_bound (- Z.of_nat (length full)) pageSize Hsize).
  nia.
Qed.

Lemma fetchProjects_pages_tile_witness :
  concat (map (fun p => ApiResponse.data
                 (fst (fetchProjects (H := codeUnitCollator) [] (Z.of_nat p) 2
                         None None None (storeOf [sampleA; sampleB; sampleC]))))
            (seq 1 (Z.to_nat 2))) =
  [sampleA; sampleB; sampleC].
Proof.
  apply (proj2 (fetchProjects_pages_tile (H := codeUnitCollator) []
                  (storeOf [sampleA; sampleB; sampleC]) 2 None None None
                  ltac:(lia)) 2).
  reflexivity.
Defined.

(** X7.  The total depends on the records and the filter text alone, and never
    falls below the number of items: paging and sorting leave it as it is. *)
Theorem fetchProjects_total `{Collator} (generated : list GeoProject)
    (st : Store) (page pageSize : Z) (sortBy : option Key)
    (sortOrder : option SortOrder) (filterText : option string) :
  let resp := fst (fetchProjects generated page pageSize sortBy sortOrder
                     filterText st) in
  ApiResponse.total resp =
    Z.of_nat (length (filterStep filterText (snapshot generated st))) /\
  0 <= Z.of_nat (length (ApiResponse.data resp)) <= ApiResponse.total resp /\
  ApiResponse.total resp <= Z.of_nat (length (snapshot generated st)) /\
  ApiResponse.page resp = page /\
  ApiResponse.pageSize resp = pageSize.
Proof.
  intros resp. unfold resp. rewrite fetchProjects_response.
  cbn [ApiResponse.data ApiResponse.total ApiResponse.page ApiResponse.pageSize].
  unfold fullSequence. rewrite sortStep_length.
  split; [reflexivity|]. split; [|split; [|split; reflexivity]].
  - unfold pageStep, JS.slice. rewrite length_take, length_drop, sortStep_length. lia.
  - unfold filterStep. destruct filterText as [text|]; [|lia].
    destruct (truthy (trim text)); [|lia].
    pose proof (filter_length_le (filterFn (toLowerCase text))
                  (snapshot generated st)). lia.
Qed.

Section Reverse.
Context {A : Type} (cmp : A -> A -> Z).
Hypothesis consistent : Consistent cmp.

Lemma sort_ext (cmp' : A -> A -> Z) (l : list A) :
  (forall a b, cmp' a b = cmp a b) -> JS.sort cmp' l = JS.sort cmp l.
Proof.
  intros E. induction l as [|x l IH]; [reflexivity|]. cbn [JS.sort]. rewrite IH.
  generalize (JS.sort cmp l). intros t.
  induction t as [|y t IHt]; [reflexivity|]. cbn [JS.insert].
  now rewrite E, IHt.
Qed.

Lemma filter_none (q : A -> bool) (l : list A) :
  (forall b, In b l -> q b = false) -> List.filter q l = [].
Proof.
  induction l as [|a l IH]; [reflexivity|]. intros Hq. cbn [List.filter].
  rewrite (Hq a) by now left. apply IH. intros b Hb. apply Hq. now right.
Qed.

Lemma Permutation_filter (q : A -> bool) (l l' : list A) :
  Permutation l l' -> Permutation (List.filter q l) (List.filter q l').
Proof.
  induction 1 as [|a l l' _ IH|a b l|l l' l'' _ IH1 _ IH2]; cbn [List.filter].
  - constructor.
  - destruct (q a); [now apply perm_skip | exact IH].
  - destruct (q a); destruct (q b); try reflexivity. apply perm_swap.
  - now transitivity (List.filter q l').
Qed.

Lemma tiedWith_NoTies (x : A) (l : list A) :
  NoTies cmp l -> (length (tiedWith cmp x l) <= 1)%nat.
Proof.
  induction 1 as [|a l Ha _ IH]; [simpl; lia|].
  unfold tiedWith in *. cbn [List.filter].
  destruct (Z.eqb_spec (cmp x a) 0) as [Exa|_]; [|exact IH].
  replace (List.filter (fun y => cmp x y =? 0) l) with (@nil A); [simpl; lia|].
  symmetry. apply filter_none.
  intros b Hb. rewrite Forall_forall in Ha.
  specialize (Ha b (proj2 (list_elem_of_In _ _) Hb)).
  apply Z.eqb_neq. intros Exb. apply Ha.
  pose proof (cmp_tie_sym cmp consistent _ _ Exa) as Eax.
  pose proof (cmp_tie_sym cmp consistent _ _ Exb) as Ebx.
  pose proof (cmp_trans _ consistent a x b) as H1.
  pose proof (cmp_trans _ consistent b x a) as H2.
  pose proof (cmp_antisym _ consistent a b) as Hs.
  assert (cmp a b <= 0) by lia. assert (cmp b a <= 0) by lia. lia.
Qed.

Lemma short_Permutation_eq (l1 l2 : list A) :
  Permutation l1 l2 -> (length l1 <= 1)%nat -> l1 = l2.
Proof.
  intros Hp Hl. destruct l1 as [|a [|b l1]]; simpl in Hl; [| |lia].
  - now apply Permutation_nil in Hp.
  - now apply Permutation_length_1_inv in Hp.
Qed.

Lemma StronglySorted_flip_rev (R : A -> A -> Prop) (l : list A) :
  StronglySorted R l -> StronglySorted (fun a b => R b a) (rev l).
Proof.
  induction 1 as [|x l Hs IH Hx]; [constructor|]. cbn [rev].
  apply StronglySorted_app. split; [|split].
  - intros y z Hy Hz. apply list_elem_of_In in Hz. destruct Hz as [<-|[]].
    rewrite Forall_forall in Hx. apply Hx.
    apply list_elem_of_In, in_rev, list_elem_of_In. exact Hy.
  - exact IH.
  - repeat constructor.
Qed.

Lemma sort_flip_rev (l : list A) :
  NoTies cmp l ->
  JS.sort (fun a b => cmp b a) l = rev (JS.sort cmp l).
Proof.
  intros Hn. pose proof (flip_Consistent cmp consistent) as Hflip.
  apply (stable_arrangement_unique _ Hflip).
  - rewrite <- sort_Permutation. rewrite <- Permutation_rev. apply sort_Permutation.
  - now apply sort_StronglySorted.
  - apply (StronglySorted_flip_rev (leBy cmp)). now apply sort_StronglySorted.
  - intros x.
    assert (Ex : forall t, tiedWith (fun a b => cmp b a) x t = tiedWith cmp x t).
    { intros t. unfold tiedWith. apply filter_ext. intros y.
      destruct (Z.eqb_spec (cmp y x) 0) as [E|E];
        destruct (Z.eqb_spec (cmp x y) 0) as [E'|E']; try reflexivity; exfalso.
      - apply E'. now apply (cmp_tie_sym cmp consistent).
      - apply E. now apply (cmp_tie_sym cmp consistent). }
    rewrite !Ex. apply short_Permutation_eq.
    + unfold tiedWith. apply Permutation_filter.
      rewrite <- (sort_Permutation (fun a b => cmp b a) l).
      rewrite <- Permutation_rev. apply sort_Permutation.
    + unfold tiedWith.
      rewrite <- (Permutation_length
                    (Permutation_filter (fun y => cmp x y =? 0) _ _
                       (sort_Permutation (fun a b => cmp b a) l))).
      now apply tiedWith_NoTies.
Qed.

End Reverse.

(** X8.  When no two records are tied on the key, sorting in descending order
    gives the reverse of sorting in ascending order.  (With ties it does
    not: tied records keep the order they had in both directions.) *)
Theorem sortStep_desc_reverse `{Collator} (key : Key) (records : list GeoProject) :
  NoTies (keyCompare key) records ->
  sortStep (Some key) (Some desc) records =
  rev (sortStep (Some key) (Some asc) records).
Proof.
  intros Hn. cbn [sortStep].
  rewrite (sort_ext (keyCompare key) (compareFn key (Some asc)))
    by apply compareFn_asc.
  rewrite (sort_ext (fun a b => keyCompare key b a) (compareFn key (Some desc)))
    by apply compareFn_desc.
  apply sort_flip_rev; [apply keyCompare_Consistent | exact Hn].
Qed.

Lemma sortStep_desc_reverse_witness :
  sortStep (H := codeUnitCollator) (Some Klatitude) (Some desc) [sampleA; sampleB] =
  rev (sortStep (H := codeUnitCollator) (Some Klatitude) (Some asc) [sampleA; sampleB]).
Proof.
  apply (sortStep_desc_reverse (H := codeUnitCollator)).
  repeat constructor. cbn. lia.
Defined.

(** ** The handlers of the hook *)

Lemma handleSort_eq (column : Key) (h : HookState) :
  handleSort column h =
  {| data := data h; loading := loading h; total := total h;
     state := {| TableState.page := 1;
                 TableState.pageSize := TableState.pageSize (state h);
                 TableState.sortBy := Some column;
                 TableState.sortOrder :=
                   if bool_decide (TableState.sortBy (state h) = Some column) &&
                      bool_decide (TableState.sortOrder (state h) = asc)
                   then desc else asc;
                 TableState.filterText := TableState.filterText (state h) |};
     selectedId := selectedId h |}.
Proof.
  unfold handleSort, setState. now destruct (bool_decide (_ = Some column)).
Qed.

(** X9.  Clicking the same header again flips the order, so a third click gives
    the state the first one gave; a click on another header starts
    ascending.  The header clicked, and only it, shows an arrow, up for
    ascending and down for descending. *)
Theorem handleSort_toggle (h : HookState) (column other : Key) :
  let once := handleSort column h in
  let twice := handleSort column once in
  TableState.sortOrder (state twice) <> TableState.sortOrder (state once) /\
  handleSort column twice = once /\
  (other <> column ->
     TableState.sortOrder (state (handleSort other once)) = asc /\
     getSortIndicator (state once) other = NoArrow) /\
  getSortIndicator (state once) column =
    (if bool_decide (TableState.sortOrder (state once) = asc)
     then ArrowUp else ArrowDown) /\
  getSortIndicator (state twice) column <> getSortIndicator (state once) column.
Proof.
  cbv zeta. rewrite !handleSort_eq. unfold getSortIndicator.
  cbn [state data loading total selectedId TableState.page TableState.pageSize
       TableState.sortBy TableState.sortOrder TableState.filterText].
  rewrite !(bool_decide_eq_true_2 (Some column = Some column)) by reflexivity.
  cbn [andb negb].
  destruct (bool_decide (TableState.sortBy (state h) = Some column) &&
            bool_decide (TableState.sortOrder (state h) = asc)); cbn.
  - repeat split; try discriminate;
      rewrite !(bool_decide_eq_false_2 (Some column = Some other)) by congruence;
      reflexivity.
  - repeat split; try discriminate;
      rewrite !(bool_decide_eq_false_2 (Some column = Some other)) by congruence;
      reflexivity.
Qed.

Lemma handleSort_toggle_witness :
  TableState.sortOrder
    (state (handleSort Klatitude (handleSort Kstatus initialState))) = asc.
Proof.
  destruct (handleSort_toggle initialState Kstatus Klatitude)
    as (_ & _ & Hother & _).
  apply Hother. discriminate.
Defined.

(** Every handler touches one cell: a selecting action leaves the table
    state alone, every other action leaves the selection alone, and none of
    them changes the loaded data, the total or the loading flag.  Apart from
    a page change and a selection, every action leaves the page at 1. *)
Lemma dispatch_frame (a : Action) (h : HookState) :
  data (dispatch a h) = data h /\
  total (dispatch a h) = total h /\
  loading (dispatch a h) = loading h /\
  match a with
  | OnRowSelect sel | OnMarkerClick sel =>
      state (dispatch a h) = state h /\ selectedId (dispatch a h) = Some sel
  | OnPageChange page =>
      selectedId (dispatch a h) = selectedId h /\
      TableState.page (state (dispatch a h)) = page /\
      TableState.pageSize (state (dispatch a h)) = TableState.pageSize (state h) /\
      TableState.sortBy (state (dispatch a h)) = TableState.sortBy (state h) /\
      TableState.sortOrder (state (dispatch a h)) = TableState.sortOrder (state h) /\
      TableState.filterText (state (dispatch a h)) = TableState.filterText (state h)
  | OnPageSizeChange pageSize =>
      selectedId (dispatch a h) = selectedId h /\
      TableState.page (state (dispatch a h)) = 1 /\
      TableState.pageSize (state (dispatch a h)) = pageSize /\
      TableState.sortBy (state (dispatch a h)) = TableState.sortBy (state h) /\
      TableState.sortOrder (state (dispatch a h)) = TableState.sortOrder (state h) /\
      TableState.filterText (state (dispatch a h)) = TableState.filterText (state h)
  | OnFilter _ | OnSort _ =>
      selectedId (dispatch a h) = selectedId h /\
      TableState.page (state (dispatch a h)) = 1 /\
      TableState.pageSize (state (dispatch a h)) = TableState.pageSize (state h)
  end.
Proof. destruct a; cbn; repeat split. Qed.

Lemma dispatchAll_app (xs ys : list Action) (h : HookState) :
  dispatchAll (xs ++ ys) h = dispatchAll ys (dispatchAll xs h).
Proof. apply fold_left_app. Qed.

(** X10.  After any sequence of actions the selected id is the id of the last
    selecting action, or what it was before when there is none.  So a
    selection is never cleared: once an id is selected, some id stays
    selected whatever follows.  The rows, the total and the loading flag
    are what they were: the handlers never touch what a load stored. *)
Theorem dispatchAll_selection (actions : list Action) (h : HookState) :
  selectedId (dispatchAll actions h) =
    match lastSelected actions with
    | Some sel => Some sel
    | None => selectedId h
    end /\
  (selectedId h <> None -> selectedId (dispatchAll actions h) <> None) /\
  data (dispatchAll actions h) = data h /\
  total (dispatchAll actions h) = total h /\
  loading (dispatchAll actions h) = loading h.
Proof.
  assert (Hframe : forall acts s,
             data (dispatchAll acts s) = data s /\
             total (dispatchAll acts s) = total s /\
             loading (dispatchAll acts s) = loading s).
  { induction acts as [|a acts IH]; intros s; [now cbn|].
    cbn [dispatchAll fold_left].
    change (fold_left (fun h0 a0 => dispatch a0 h0) acts (dispatch a s))
      with (dispatchAll acts (dispatch a s)).
    destruct (IH (dispatch a s)) as (-> & -> & ->).
    destruct (dispatch_frame a s) as (-> & -> & -> & _). now repeat split. }
  assert (Hlast : forall acts s,
             selectedId (dispatchAll acts s) =
             match lastSelected acts with
             | Some sel => Some sel
             | None => selectedId s
             end).
  { induction acts as [|a acts IH]; intros s; [reflexivity|].
    cbn [dispatchAll fold_left lastSelected].
    change (fold_left (fun h0 a0 => dispatch a0 h0) acts (dispatch a s))
      with (dispatchAll acts (dispatch a s)).
    rewrite IH. destruct (lastSelected acts); [reflexivity|].
    destruct a; reflexivity. }
  split; [apply Hlast|]. split; [|apply Hframe].
  rewrite Hlast. destruct (lastSelected actions); [discriminate | trivial].
Qed.

Lemma dispatchAll_selection_witness :
  selectedId
    (dispatchAll [OnPageChange 3; OnFilter "wind"; OnSort Kstatus]
       (handleRowSelect "project-7" initialState)) <> None.
Proof.
  apply (proj1 (proj2 (dispatchAll_selection
                  [OnPageChange 3; OnFilter "wind"; OnSort Kstatus]
                  (handleRowSelect "project-7" initialState)))).
  discriminate.
Defined.

(** ** What a load puts on the screen *)

Lemma StronglySorted_take_drop {A} (R : A -> A -> Prop) (n k : nat) (l : list A) :
  StronglySorted R l -> StronglySorted R (take n (drop k l)).
Proof.
  intros Hs. rewrite <- (take_drop k l) in Hs.
  apply StronglySorted_app in Hs. destruct Hs as (_ & _ & Hd).
  rewrite <- (take_drop n (drop k l)) in Hd.
  apply StronglySorted_app in Hd. tauto.
Qed.

Lemma StronglySorted_filter {A} (R : A -> A -> Prop) (p : A -> bool) (l : list A) :
  StronglySorted R l -> StronglySorted R (List.filter p l).
Proof.
  induction 1 as [|x l Hs IH Hx]; cbn [List.filter]; [constructor|].
  destruct (p x); [|exact IH]. constructor; [exact IH|].
  rewrite Forall_forall in Hx. apply Forall_forall. intros y Hy.
  apply Hx. apply list_elem_of_In. apply list_elem_of_In in Hy.
  change (In y (List.filter p l)) in Hy. apply filter_In in Hy. tauto.
Qed.

Lemma sortStep_ordered `{Collator} (key : Key) (sortOrder : SortOrder)
    (l : list GeoProject) :
  StronglySorted (leBy (orderedCompare key sortOrder))
    (sortStep (Some key) (Some sortOrder) l).
Proof.
  assert (Hs : StableSortOf (orderedCompare key sortOrder) l
                 (sortStep (Some key) (Some sortOrder) l)).
  { eapply StableSortOf_sgn;
      [|apply sort_StableSortOf, (compareFn_Consistent key (Some sortOrder))].
    intros a b. unfold orderedCompare.
    destruct sortOrder; [now rewrite compareFn_asc|].
    rewrite compareFn_desc.
    pose proof (cmp_antisym _ (keyCompare_Consistent key) a b). lia. }
  apply Hs.
Qed.

Lemma loadData_eq `{Collator} (generated : list GeoProject) (h : HookState)
    (st : Store) :
  loadData generated h st =
  let r := fetchProjects generated
             (TableState.page (state h)) (TableState.pageSize (state h))
             (TableState.sortBy (state h)) (Some (TableState.sortOrder (state h)))
             None st in
  ({| data := ApiResponse.data (fst r); loading := false;
      total := ApiResponse.total (fst r);
      state := state h; selectedId := selectedId h |}, snd r).
Proof.
  unfold loadData, bind, ret. cbn [state selectedId].
  now destruct (fetchProjects _ _ _ _ _ _ st).
Qed.

Lemma loadData_fields `{Collator} (generated : list GeoProject) (h : HookState)
    (st : Store) :
  fst (loadData generated h st) =
  {| data :=
       pageStep (TableState.page (state h)) (TableState.pageSize (state h))
         (sortStep (TableState.sortBy (state h))
            (Some (TableState.sortOrder (state h))) (snapshot generated st));
     loading := false;
     total := Z.of_nat (length (snapshot generated st));
     state := state h;
     selectedId := selectedId h |}.
Proof.
  rewrite loadData_eq. cbn [fst]. rewrite fetchProjects_response.
  cbn [ApiResponse.data ApiResponse.total]. unfold fullSequence.
  cbn [filterStep]. now rewrite sortStep_length.
Qed.

Lemma pageStep_ordered `{Collator} (key : Key) (sortOrder : SortOrder)
    (page pageSize : Z) (l : list GeoProject) :
  StronglySorted (leBy (orderedCompare key sortOrder))
    (pageStep page pageSize (sortStep (Some key) (Some sortOrder) l)).
Proof.
  unfold pageStep, JS.slice. apply StronglySorted_take_drop, sortStep_ordered.
Qed.

(** X11.  A load never looks at the filter text: the total it stores is the size
    of the whole record store, and the rows are a page of all the records,
    sorted by the current column.  The table state and the selection are
    left as they were, and the loading flag is cleared. *)
Theorem loadData_result `{Collator} (generated : list GeoProject)
    (h : HookState) (st : Store) :
  let h' := fst (loadData generated h st) in
  let records := snapshot generated st in
  total h' = Z.of_nat (length records) /\
  data h' =
    pageStep (TableState.page (state h)) (TableState.pageSize (state h))
      (sortStep (TableState.sortBy (state h))
         (Some (TableState.sortOrder (state h))) records) /\
  (forall r, In r (data h') -> In r records) /\
  (forall key, TableState.sortBy (state h) = Some key ->
     StronglySorted (leBy (orderedCompare key (TableState.sortOrder (state h))))
       (data h')) /\
  (TableState.sortBy (state h) = None ->
     exists before after, records = before ++ data h' ++ after) /\
  state h' = state h /\ selectedId h' = selectedId h /\ loading h' = false.
Proof.
  intros h' records. unfold h'. rewrite loadData_fields.
  cbn [data total state selectedId loading]. fold records.
  split; [reflexivity|]. split; [reflexivity|]. split; [|split; [|split]].
  - intros r Hin. apply pageStep_In in Hin.
    now apply (Permutation_in _ (Permutation_sym (sortStep_Permutation _ _ _))) in Hin.
  - intros key ->. apply pageStep_ordered.
  - intros ->. cbn [sortStep]. unfold pageStep, JS.slice.
    match goal with
    | |- context [take ?n (drop ?k records)] =>
        exists (take k records), (drop n (drop k records))
    end.
    now rewrite take_drop, take_drop.
  - repeat split.
Qed.

Lemma loadData_result_witness :
  StronglySorted (leBy (orderedCompare (H := codeUnitCollator) Klatitude asc))
    (data (fst (loadData (H := codeUnitCollator) [sampleA; sampleB; sampleC]
                  (handleSort Klatitude initialState) emptyStore))).
Proof.
  destruct (loadData_result (H := codeUnitCollator) [sampleA; sampleB; sampleC]
              (handleSort Klatitude initialState) emptyStore)
    as (_ & _ & _ & Hsorted & _).
  apply (Hsorted Klatitude). reflexivity.
Defined.

Lemma filteredData_filterStep (rows : list GeoProject) (state : TableState.t) :
  filteredData rows state = filterStep (Some (TableState.filterText state)) rows.
Proof.
  unfold filteredData, filterStep.
  now destruct (truthy (trim (TableState.filterText state))).
Qed.

(** X12.  The search box filters what is loaded, not the store: the rows on
    screen are exactly the rows of the loaded page that match the text,
    each as often and in the order the page has it (so still sorted by the
    current column), and all of the page when the text is blank.  The total
    beside them keeps counting every record of the store. *)
Theorem filteredData_visible_rows `{Collator} (generated : list GeoProject)
    (h : HookState) (st : Store) :
  let h' := fst (loadData generated h st) in
  let text := TableState.filterText (state h) in
  let rows := filteredData (data h') (state h') in
  (forall r, In r rows -> In r (data h')) /\
  (trim text <> EmptyString ->
     forall r, In r rows <-> In r (data h') /\ matchesRule text r) /\
  (whitespaceOnly text -> rows = data h') /\
  (forall key, TableState.sortBy (state h) = Some key ->
     StronglySorted (leBy (orderedCompare key (TableState.sortOrder (state h))))
       rows) /\
  (length rows <= length (data h'))%nat /\
  total h' = Z.of_nat (length (snapshot generated st)) /\
  (trim text <> EmptyString ->
     forall matches : GeoProject -> bool,
       (forall r, matches r = true <-> matchesRule text r) ->
       rows = List.filter matches (data h')) /\
  rows `sublist_of` data h'.
Proof.
  intros h' text rows.
  assert (Hstate : state h' = state h)
    by (unfold h'; now rewrite loadData_fields).
  assert (Htotal : total h' = Z.of_nat (length (snapshot generated st)))
    by (unfold h'; now rewrite loadData_fields).
  assert (Hsorted : forall key, TableState.sortBy (state h) = Some key ->
            StronglySorted
              (leBy (orderedCompare key (TableState.sortOrder (state h))))
              (data h')).
  { intros key Hkey. unfold h'. rewrite loadData_fields. cbn [data].
    rewrite Hkey. apply pageStep_ordered. }
  assert (Hrows : rows = filterStep (Some text) (data h')).
  { unfold rows, text. rewrite filteredData_filterStep. now rewrite Hstate. }
  assert (Hsub : forall r, In r rows -> In r (data h')).
  { intros r. rewrite Hrows. unfold filterStep.
    destruct (truthy (trim text)); [|trivial].
    intros Hin. apply filter_In in Hin. tauto. }
  split; [exact Hsub|]. split; [|split; [|split; [|split; [|split; [|split]]]]].
  - intros Ht r. rewrite Hrows. now apply filterStep_In.
  - intros Hw. rewrite Hrows. apply filterStep_blank. eauto.
  - intros key Hkey. rewrite Hrows. unfold filterStep.
    destruct (truthy (trim text)); [apply StronglySorted_filter|]; now apply Hsorted.
  - rewrite Hrows. unfold filterStep.
    destruct (truthy (trim text)); [apply filter_length_le | lia].
  - exact Htotal.
  - intros Ht matches Hm. rewrite Hrows. unfold filterStep.
    apply truthy_true in Ht. rewrite Ht. apply filter_ext. intros r.
    destruct (matches r) eqn:E.
    + now apply filterFn_matchesRule, Hm.
    + destruct (filterFn (toLowerCase text) r) eqn:E'; [|reflexivity].
      apply filterFn_matchesRule, Hm in E'. congruence.
  - rewrite Hrows. unfold filterStep.
    destruct (truthy (trim text)); [|reflexivity].
    generalize (data h'). intros l. induction l as [|x l IH]; cbn [List.filter].
    + constructor.
    + destruct (filterFn (toLowerCase text) x);
        [now apply sublist_skip | now apply sublist_cons].
Qed.

Lemma filteredData_visible_rows_witness :
  filteredData
    (data (fst (loadData (H := codeUnitCollator) [sampleA; sampleB; sampleC]
                  (handleSearch "   " initialState) emptyStore)))
    (state (fst (loadData (H := codeUnitCollator) [sampleA; sampleB; sampleC]
                   (handleSearch "   " initialState) emptyStore))) =
  data (fst (loadData (H := codeUnitCollator) [sampleA; sampleB; sampleC]
               (handleSearch "   " initialState) emptyStore)).
Proof.
  destruct (filteredData_visible_rows (H := codeUnitCollator)
              [sampleA; sampleB; sampleC] (handleSearch "   " initialState)
              emptyStore) as (_ & _ & Hblank & _).
  apply Hblank. cbn. repeat split.
Defined.

(** X13.  The footer after a load.  On a page that starts inside the records the
    range it shows counts exactly the rows loaded; with no records it shows
    "No results"; on a page past the end the start of the range exceeds its
    end while no row is loaded. *)
Theorem paginationInfo_range `{Collator} (generated : list GeoProject)
    (h : HookState) (st : Store) :
  let h' := fst (loadData generated h st) in
  let page := TableState.page (state h) in
  let pageSize := TableState.pageSize (state h) in
  1 <= page -> 0 < pageSize ->
  (total h' = 0 -> paginationInfo (total h') (state h') = None) /\
  (0 < total h' ->
     match paginationInfo (total h') (state h') with
     | Some (from, to, shown) =>
         shown = total h' /\
         ((page - 1) * pageSize < total h' ->
            1 <= from <= to /\ to <= total h' /\
            to - from + 1 = Z.of_nat (length (data h'))) /\
         (total h' <= (page - 1) * pageSize ->
            to < from /\ data h' = [])
     | None => False
     end).
Proof.
  intros h' page pageSize Hpage Hsize.
  assert (Hstate : state h' = state h)
    by (unfold h'; now rewrite loadData_fields).
  assert (Htotal : total h' = Z.of_nat (length (snapshot generated st)))
    by (unfold h'; now rewrite loadData_fields).
  assert (Hdata : data h' =
            pageStep (TableState.page (state h)) (TableState.pageSize (state h))
              (sortStep (TableState.sortBy (state h))
                 (Some (TableState.sortOrder (state h)))
                 (snapshot generated st)))
    by (unfold h'; now rewrite loadData_fields).
  unfold paginationInfo. rewrite Hstate.
  fold page pageSize. split.
  - intros ->. reflexivity.
  - intros Hpos. destruct (Z.ltb_spec 0 (total h')); [|lia].
    split; [reflexivity|].
    assert (Hlen : Z.of_nat (length (data h')) =
                   Z.min pageSize (Z.max 0 (total h' - (page - 1) * pageSize))).
    { rewrite Hdata. fold page pageSize. unfold pageStep.
      rewrite slice_length, sortStep_length by nia. now rewrite Htotal. }
    split.
    + intros Hin. nia.
    + intros Hout. split; [nia|].
      apply length_zero_iff_nil. lia.
Qed.

Lemma paginationInfo_range_witness :
  3 - 1 + 1 =
  Z.of_nat (length (data (fst (loadData (H := codeUnitCollator)
                                 [sampleA; sampleB; sampleC]
                                 initialState emptyStore)))).
Proof.
  destruct (paginationInfo_range (H := codeUnitCollator)
              [sampleA; sampleB; sampleC] initialState emptyStore)
    as [_ Hpos]; [cbn; lia | cbn; lia |].
  cbn in Hpos. apply Hpos; lia.
Defined.

(** ** Pages a user can reach *)

Lemma pressButton_PageInRange (records : nat) (b : Button) (h : HookState) :
  PageInRange records h -> PageInRange records (pressButton b h).
Proof.
  intros (Hsize & Htotal & Hpage & Hrange). unfold pressButton, totalPages.
  destruct (Z.eqb_spec (TableState.pageSize (state h)) 0) as [E|_]; [lia|].
  set (ps := TableState.pageSize (state h)) in *.
  set (pg := TableState.page (state h)) in *.
  pose proof (Z.div_mod (- total h) ps ltac:(lia)) as Hdm.
  pose proof (Z.mod_pos_bound (- total h) ps Hsize) as Hb.
  assert (Hkeep : PageInRange records h) by (repeat split; assumption).
  destruct b; cbn [disabled buttonTarget].
  - destruct (Z.eqb_spec pg 1); [exact Hkeep|].
    repeat split; cbn; auto; lia.
  - destruct (Z.eqb_spec pg 1); [exact Hkeep|].
    repeat split; cbn; auto; try lia; right; fold ps pg; nia.
  - match goal with
    | |- context [?pages <=? pg] => destruct (Z.leb_spec pages pg)
    end; [exact Hkeep|].
    repeat split; cbn; auto; try lia; right; fold ps pg; nia.
  - match goal with
    | |- context [?pages <=? pg] => destruct (Z.leb_spec pages pg)
    end; [exact Hkeep|].
    repeat split; cbn; auto; try lia; right; fold ps; nia.
Qed.

Lemma uiStep_PageInRange `{Collator} (generated : list GeoProject) (ev : UiEvent)
    (h : HookState) (st : Store) :
  wf st ->
  PageInRange (length (snapshot generated st)) h ->
  let c := uiStep generated ev (h, st) in
  wf (snd c) /\
  snapshot generated (snd c) = snapshot generated st /\
  PageInRange (length (snapshot generated st)) (fst c).
Proof.
  intros Hwf Hinv. pose proof Hinv as (Hsize & Htotal & Hpage & Hrange).
  destruct ev; cbn [uiStep fst snd];
    try (split; [exact Hwf|]; split; [reflexivity|]).
  - repeat split; cbn; auto; lia.
  - rewrite handleSort_eq. repeat split; cbn; auto; lia.
  - repeat split; cbn; auto; try lia. destruct o; cbn; lia.
  - now apply pressButton_PageInRange.
  - exact Hinv.
  - exact Hinv.
  - rewrite loadData_eq. cbn [fst snd].
    destruct (fetchProjects_store generated
                (TableState.page (state h)) (TableState.pageSize (state h))
                (TableState.sortBy (state h))
                (Some (TableState.sortOrder (state h))) None st)
      as (_ & _ & Hs).
    destruct (Hs Hwf) as [Hwf' Hsnap].
    split; [exact Hwf'|]. split; [exact Hsnap|].
    rewrite fetchProjects_response. cbn [ApiResponse.total ApiResponse.data].
    unfold fullSequence. cbn [filterStep]. rewrite sortStep_length.
    repeat split; cbn; auto. destruct Hrange as [?|?]; [now left|].
    right. lia.
Qed.

(** X14.  However the user types, clicks headers, chooses a page size, presses
    the pagination buttons, selects rows or markers, and whenever loads
    complete in between, the page stays at 1 or inside the records: the
    buttons never lead past the last page.  So a load from a reachable
    state brings at least one row, unless the store is empty. *)
Theorem uiRun_page_in_range `{Collator} (generated : list GeoProject)
    (evs : list UiEvent) (st0 : Store) :
  wf st0 ->
  let records := snapshot generated st0 in
  let c := uiRun generated evs (initialState, st0) in
  PageInRange (length records) (fst c) /\
  snapshot generated (snd c) = records /\
  (records <> [] ->
     data (fst (uiRun generated (evs ++ [DataLoaded]) (initialState, st0))) <> []).
Proof.
  intros Hwf records c.
  assert (Hinv : forall evs h st,
             wf st -> snapshot generated st = records ->
             PageInRange (length records) h ->
             wf (snd (uiRun generated evs (h, st))) /\
             snapshot generated (snd (uiRun generated evs (h, st))) = records /\
             PageInRange (length records) (fst (uiRun generated evs (h, st)))).
  { induction evs0 as [|ev evs0 IH]; intros h st Hw Hs Hp; [now cbn|].
    cbn [uiRun fold_left].
    change (fold_left (fun c0 ev0 => uiStep generated ev0 c0) evs0
              (uiStep generated ev (h, st)))
      with (uiRun generated evs0 (uiStep generated ev (h, st))).
    rewrite <- Hs in Hp.
    destruct (uiStep_PageInRange generated ev h st Hw Hp) as (Hw' & Hs' & Hp').
    destruct (uiStep generated ev (h, st)) as [h1 st1]. cbn [fst snd] in *.
    apply IH; [exact Hw' | congruence | now rewrite <- Hs]. }
  assert (Hinit : PageInRange (length records) initialState)
    by (repeat split; cbn; auto; lia).
  destruct (Hinv evs initialState st0 Hwf eq_refl Hinit) as (Hw & Hs & Hp).
  fold c in Hw, Hs, Hp. split; [exact Hp|]. split; [exact Hs|].
  intros Hne. unfold uiRun. rewrite fold_left_app. cbn [fold_left].
  change (fold_left (fun c0 ev0 => uiStep generated ev0 c0) evs (initialState, st0))
    with c.
  destruct c as [h st]. cbn [fst snd uiStep] in *.
  rewrite loadData_eq. cbn [fst data].
  rewrite fetchProjects_response. cbn [ApiResponse.data].
  unfold fullSequence. cbn [filterStep]. rewrite Hs.
  destruct Hp as (Hsize & Htotal & Hpage & Hrange).
  intros Hnil. apply (f_equal (@length _)) in Hnil. apply (f_equal Z.of_nat) in Hnil.
  unfold pageStep in Hnil.
  rewrite slice_length, sortStep_length in Hnil by nia.
  assert (0 < Z.of_nat (length records))
    by (destruct records; [congruence | cbn; lia]).
  cbn [length] in Hnil. lia.
Qed.

Lemma uiRun_page_in_range_witness :
  data (fst (uiRun (H := codeUnitCollator) [sampleA; sampleB; sampleC]
               ([PageSizeChosen Rows10; ButtonPressed LastButton;
                 ButtonPressed NextButton] ++ [DataLoaded])
               (initialState, emptyStore))) <> [].
Proof.
  apply (proj2 (proj2 (uiRun_page_in_range (H := codeUnitCollator)
                         [sampleA; sampleB; sampleC]
                         [PageSizeChosen Rows10; ButtonPressed LastButton;
                          ButtonPressed NextButton] emptyStore I))).
  discriminate.
Defined.

(** ** The selected project of [App] *)

Lemma find_first_id (sel : string) (l : list GeoProject) (r : GeoProject) :
  NoDup (map id l) -> In r l -> id r = sel ->
  List.find (fun project => String.eqb (id project) sel) l = Some r.
Proof.
  intros Hnd Hin Hid. induction l as [|x l IH]; [destruct Hin|].
  cbn [List.find]. cbn [map] in Hnd. apply NoDup_cons in Hnd.
  destruct Hnd as [Hx Hnd]. destruct Hin as [->|Hin].
  - subst sel. now rewrite String.eqb_refl.
  - destruct (String.eqb_spec (id x) sel) as [E|_]; [|now apply IH].
    exfalso. apply Hx. rewrite E, <- Hid.
    apply list_elem_of_In, in_map, Hin.
Qed.

(** X15.  The project shown in the info panel is a loaded record that carries the
    selected id, and there is one as soon as a loaded record carries it;
    nothing is shown without a selection or for the empty id.  When ids are
    distinct, clicking a loaded row shows that very row. *)
Theorem selectedProject_found (h : HookState) :
  (forall p, selectedProject h = Some p ->
     In p (data h) /\ selectedId h = Some (id p) /\ id p <> EmptyString) /\
  (forall r, In r (data h) -> selectedId h = Some (id r) -> id r <> EmptyString ->
     exists p, selectedProject h = Some p /\ id p = id r) /\
  (selectedId h = None \/ selectedId h = Some EmptyString ->
     selectedProject h = None) /\
  (forall r, In r (data h) -> id r <> EmptyString -> NoDup (map id (data h)) ->
     selectedProject (handleRowSelect (id r) h) = Some r).
Proof.
  unfold selectedProject, JS.find. split; [|split; [|split]].
  - intros p. destruct (selectedId h) as [sel|]; [|discriminate].
    destruct (truthy sel) eqn:Et; [|discriminate].
    intros Hf. apply find_some in Hf. destruct Hf as [Hin He].
    apply String.eqb_eq in He. subst sel.
    split; [exact Hin|]. split; [reflexivity|]. now apply truthy_true.
  - intros r Hin -> Hne. apply truthy_true in Hne. rewrite Hne.
    destruct (List.find _ (data h)) as [p|] eqn:Ef.
    + exists p. split; [reflexivity|].
      apply find_some in Ef. now apply String.eqb_eq.
    + exfalso. apply (find_none _ _ Ef) in Hin.
      now rewrite String.eqb_refl in Hin.
  - intros [->| ->]; reflexivity.
  - intros r Hin Hne Hnd. cbn [handleRowSelect setSelectedId selectedId data].
    apply truthy_true in Hne. rewrite Hne. now apply find_first_id.
Qed.

Lemma selectedProject_found_witness :
  selectedProject
    (handleRowSelect (id sampleB)
       (fst (loadData (H := codeUnitCollator) [sampleA; sampleB; sampleC]
               initialState emptyStore))) = Some sampleB.
Proof.
  apply (proj2 (proj2 (proj2 (selectedProject_found
           (fst (loadData (H := codeUnitCollator) [sampleA; sampleB; sampleC]
                   initialState emptyStore)))))).
  - vm_compute. auto.
  - discriminate.
  - vm_compute. repeat constructor; rewrite ?list_elem_of_In; cbn;
      intuition discriminate.
Defined.

(** ** The markers of [GeoMap] *)

Lemma addMarker_fold (data : list GeoProject) (registry : gmap string Marker)
    (group : list string) :
  exists registry' new,
    fold_left addMarker data (registry, group) = (registry', group ++ new) /\
    registry ⊆ registry' /\
    (forall r, In r data -> is_Some (registry' !! id r)) /\
    (forall i m, registry' !! i = Some m ->
       registry !! i = Some m \/
       (registry !! i = None /\ exists r, In r data /\ id r = i /\ m = newMarker r)) /\
    NoDup new /\
    (forall i, In i new <-> registry !! i = None /\ exists r, In r data /\ id r = i).
Proof.
  revert registry group. induction data as [|x data IH]; intros registry group.
  - exists registry, []. rewrite app_nil_r. cbn.
    repeat split; try tauto; try constructor.
    + reflexivity.
    + intros (_ & r & [] & _).
  - cbn [fold_left addMarker]. destruct (registry !! id x) as [mx|] eqn:Ex.
    + destruct (IH registry group) as (reg' & new & Ef & Hsub & Hall & Hfrom & Hnd & Hnew).
      exists reg', new. rewrite Ef. split; [reflexivity|].
      split; [exact Hsub|]. split; [|split; [|split; [exact Hnd|]]].
      * intros r [<-|Hin]; [|now apply Hall].
        exists mx. eapply lookup_weaken; eassumption.
      * intros i m Hm. destruct (Hfrom i m Hm) as [?|(Hn & r & Hr & Hi & Hmk)];
          [now left|]. right. split; [exact Hn|]. exists r. cbn. tauto.
      * intros i. rewrite Hnew. split.
        -- intros (Hn & r & Hr & Hi). split; [exact Hn|]. exists r. cbn. tauto.
        -- intros (Hn & r & [<-|Hr] & Hi); [congruence|]. split; [exact Hn|]. eauto.
    + destruct (IH (<[id x := newMarker x]> registry) (group ++ [id x]))
        as (reg' & new & Ef & Hsub & Hall & Hfrom & Hnd & Hnew).
      exists reg', (id x :: new). rewrite Ef, <- app_assoc. split; [reflexivity|].
      assert (Hx : reg' !! id x = Some (newMarker x)).
      { eapply lookup_weaken; [|exact Hsub]. apply lookup_insert_eq. }
      split; [|split; [|split; [|split]]].
      * transitivity (<[id x := newMarker x]> registry); [|exact Hsub].
        now apply insert_subseteq.
      * intros r [<-|Hin]; [eauto | now apply Hall].
      * intros i m Hm. destruct (Hfrom i m Hm) as [Hi|(Hn & r & Hr & Hi & Hmk)].
        -- destruct (decide (id x = i)) as [<-|Hne].
           ++ rewrite lookup_insert_eq in Hi. injection Hi as <-.
              right. split; [exact Ex|]. exists x. cbn. tauto.
           ++ rewrite lookup_insert_ne in Hi by exact Hne. now left.
        -- destruct (decide (id x = i)) as [<-|Hne].
           ++ now rewrite lookup_insert_eq in Hn.
           ++ rewrite lookup_insert_ne in Hn by exact Hne.
              right. split; [exact Hn|]. exists r. cbn. tauto.
      * apply NoDup_cons. split; [|exact Hnd].
        rewrite list_elem_of_In, Hnew. rewrite lookup_insert_eq.
        intros [Hn _]. discriminate.
      * intros i. cbn [In]. rewrite Hnew. split.
        -- intros [<-|(Hn & r & Hr & Hi)].
           ++ split; [exact Ex|]. exists x. cbn. tauto.
           ++ destruct (decide (id x = i)) as [<-|Hne];
                [now rewrite lookup_insert_eq in Hn|].
              rewrite lookup_insert_ne in Hn by exact Hne.
              split; [exact Hn|]. exists r. cbn. tauto.
        -- intros (Hn & r & [<-|Hr] & Hi); [now left|].
           destruct (decide (id x = i)) as [E|Hne]; [now left|]. right.
           rewrite lookup_insert_ne by exact Hne. split; [exact Hn|]. eauto.
Qed.

(** X16.  The registry of markers only grows.  Once the map is there and the page
    has records, every record of the page has a marker; a marker already
    registered is kept as it is, and a new one is built from a record of
    the page with that id. *)
Theorem addMarkers_registry (data : list GeoProject) (g : GeoMapState) :
  let g' := fst (addMarkers data g) in
  markers g ⊆ markers g' /\
  mapReady g' = mapReady g /\
  (mapReady g = true ->
     forall r, In r data -> is_Some (markers g' !! id r)) /\
  (forall i m, markers g' !! i = Some m ->
     markers g !! i = Some m \/
     (markers g !! i = None /\ exists r, In r data /\ id r = i /\ m = newMarker r)) /\
  (mapReady g = false \/ data = [] -> addMarkers data g = (g, [])).
Proof.
  unfold addMarkers.
  destruct (mapReady g) eqn:Er; cbn [negb orb];
    [|cbn; repeat split; try discriminate; auto].
  destruct data as [|x data]; cbn [length Nat.eqb].
  - cbn. repeat split; auto. intros _ r [].
  - destruct (addMarker_fold (x :: data) (markers g) [])
      as (reg' & new & Ef & Hsub & Hall & Hfrom & _ & _).
    rewrite Ef. cbn [fst markers mapReady app].
    split; [exact Hsub|]. split; [reflexivity|]. split; [auto|].
    split; [exact Hfrom|]. intros [?|?]; discriminate.
Qed.

Lemma addMarkers_registry_witness :
  is_Some (markers
             (fst (addMarkers [sampleA; sampleB]
                     {| mapReady := true; markers := ∅; view := InitialView |}))
           !! id sampleB).
Proof.
  destruct (addMarkers_registry [sampleA; sampleB]
              {| mapReady := true; markers := ∅; view := InitialView |})
    as (_ & _ & Hall & _).
  apply Hall; [reflexivity|]. right. left. reflexivity.
Defined.

Lemma addMarker_fold_registered (data : list GeoProject)
    (registry : gmap string Marker) (group : list string) :
  (forall r, In r data -> is_Some (registry !! id r)) ->
  fold_left addMarker data (registry, group) = (registry, group).
Proof.
  induction data as [|x data IH]; intros Hall; [reflexivity|].
  cbn [fold_left addMarker].
  destruct (Hall x ltac:(now left)) as [m ->].
  apply IH. intros r Hr. apply Hall. now right.
Qed.

(** X17.  The group of an effect run holds one layer for each id of the page that
    had no marker yet, and the map is fitted to the group only when it is
    not empty.  A page whose records all have markers already (a page seen
    before, or the same page again) gets an empty group: no layer is added
    and the view is left alone. *)
Theorem addMarkers_group (data : list GeoProject) (g : GeoMapState) :
  let g' := fst (addMarkers data g) in
  let group := snd (addMarkers data g) in
  NoDup group /\
  (forall i, In i group <->
     mapReady g = true /\ markers g !! i = None /\
     exists r, In r data /\ id r = i) /\
  view g' = match group with [] => view g | _ => FitBounds group end /\
  ((forall r, In r data -> is_Some (markers g !! id r)) ->
     addMarkers data g = (g, [])) /\
  addMarkers data g' = (g', []).
Proof.
  assert (Hreg : forall d s,
             (forall r, In r d -> is_Some (markers s !! id r)) ->
             addMarkers d s = (s, [])).
  { intros d s Hall. unfold addMarkers.
    destruct (negb (mapReady s) || (length d =? 0)%nat); [reflexivity|].
    rewrite (addMarker_fold_registered d (markers s) [] Hall). cbn.
    now destruct s. }
  cbv zeta. split; [|split; [|split; [|split]]].
  - unfold addMarkers.
    destruct (negb (mapReady g) || (length data =? 0)%nat); [constructor|].
    destruct (addMarker_fold data (markers g) []) as (reg' & new & Ef & _ & _ & _ & Hnd & _).
    rewrite Ef. exact Hnd.
  - intros i. unfold addMarkers. destruct (mapReady g) eqn:Er; cbn [negb orb].
    + destruct data as [|x data]; cbn [length Nat.eqb snd].
      * split; [intros [] | intros (_ & _ & r & [] & _)].
      * destruct (addMarker_fold (x :: data) (markers g) [])
          as (reg' & new & Ef & _ & _ & _ & _ & Hnew).
        rewrite Ef. cbn [snd app]. rewrite Hnew. tauto.
    + cbn. split; [intros [] | intros (? & _); discriminate].
  - unfold addMarkers.
    destruct (negb (mapReady g) || (length data =? 0)%nat); [reflexivity|].
    destruct (fold_left addMarker data (markers g, [])) as [reg' [|i group]];
      reflexivity.
  - apply Hreg.
  - destruct (mapReady g) eqn:Er.
    + apply Hreg. intros r Hr.
      assert (Hall : forall r0, In r0 data ->
                is_Some (markers (fst (addMarkers data g)) !! id r0)).
      { unfold addMarkers. rewrite Er. cbn [negb orb].
        destruct data as [|x data]; [intros r0 []|]. cbn [length Nat.eqb].
        destruct (addMarker_fold (x :: data) (markers g) [])
          as (reg' & new & Ef & _ & Hin & _).
        rewrite Ef. exact Hin. }
      now apply Hall.
    + assert (Hskip : addMarkers data g = (g, []))
        by (unfold addMarkers; now rewrite Er).
      rewrite Hskip. exact Hskip.
Qed.

Lemma addMarkers_group_witness :
  addMarkers [sampleB; sampleA]
    {| mapReady := true;
       markers := <[id sampleA := newMarker sampleA]>
                    (<[id sampleB := newMarker sampleB]> ∅);
       view := InitialView |} =
  ({| mapReady := true;
      markers := <[id sampleA := newMarker sampleA]>
                   (<[id sampleB := newMarker sampleB]> ∅);
      view := InitialView |}, []).
Proof.
  apply (proj1 (proj2 (proj2 (proj2 (addMarkers_group [sampleB; sampleA]
           {| mapReady := true;
              markers := <[id sampleA := newMarker sampleA]>
                           (<[id sampleB := newMarker sampleB]> ∅);
              view := InitialView |}))))).
  intros r [<-|[<-|[]]]; cbn [markers].
  - rewrite lookup_insert_ne by discriminate. rewrite lookup_insert_eq. eauto.
  - rewrite lookup_insert_eq. eauto.
Defined.

Lemma highlight_lookup (selectedId : option string) (m : MountedMap) (i : string) :
  markers (geo (highlight selectedId m)) !! i =
  highlightMarker selectedId (bool_decide (i ∈ layers m)) i <$> markers (geo m) !! i.
Proof.
  unfold highlight. cbn [geo markers]. rewrite map_lookup_imap.
  now destruct (markers (geo m) !! i).
Qed.

Lemma clearLayers_lookup (m : MountedMap) (i : string) :
  markers (geo (clearLayers m)) !! i =
  (fun marker => if bool_decide (i ∈ layers m) then closePopup marker else marker)
    <$> markers (geo m) !! i.
Proof.
  unfold clearLayers. cbn [geo markers]. rewrite map_lookup_imap.
  now destruct (markers (geo m) !! i).
Qed.

Lemma addMarkers_registered (data : list GeoProject) (g : GeoMapState) :
  (forall r, In r data -> is_Some (markers g !! id r)) ->
  addMarkers data g = (g, []).
Proof.
  intros Hall. unfold addMarkers.
  destruct (negb (mapReady g) || (length data =? 0)%nat); [reflexivity|].
  rewrite (addMarker_fold_registered data (markers g) [] Hall). cbn.
  now destruct g.
Qed.

Lemma addMarkers_from (data : list GeoProject) (g : GeoMapState) (i : string)
    (marker : Marker) :
  markers (fst (addMarkers data g)) !! i = Some marker ->
  markers g !! i = Some marker \/ exists r, marker = newMarker r.
Proof.
  unfold addMarkers.
  destruct (negb (mapReady g) || (length data =? 0)%nat); [now left|].
  destruct (addMarker_fold data (markers g) []) as (reg' & new & Ef & _ & _ & Hfrom & _).
  rewrite Ef. cbn [fst markers]. intros Hm.
  destruct (Hfrom i marker Hm) as [?|(_ & r & _ & _ & ->)]; eauto.
Qed.

(** After a run of "Add/update markers" every popup is closed: the cleanup
    closed those that were on the map, and new markers start closed. *)
Lemma markersEffect_closed (data : list GeoProject) (m : MountedMap) :
  ClosedOffMap m ->
  forall i marker,
    markers (geo (markersEffect data m)) !! i = Some marker ->
    popupOpen marker = false.
Proof.
  intros Hc i marker. unfold markersEffect.
  destruct (addMarkers data (geo (clearLayers m))) as [g group] eqn:Ea.
  cbn [geo]. intros Hm.
  assert (Hg : g = fst (addMarkers data (geo (clearLayers m)))) by now rewrite Ea.
  rewrite Hg in Hm. apply addMarkers_from in Hm.
  destruct Hm as [Hm|[r ->]]; [|reflexivity].
  rewrite clearLayers_lookup in Hm.
  destruct (markers (geo m) !! i) as [old|] eqn:Eo; [|discriminate].
  cbn in Hm. injection Hm as <-.
  case_bool_decide; [reflexivity|]. now apply (Hc i old).
Qed.

(** X18.  After the highlight effect the registry has the same markers at the
    same places; the marker whose key is the selected id, and no other, has
    the large icon, so at most one marker is highlighted and selecting
    another id unhighlights the previous one.  Its popup is open only if it
    is on the map; every other popup is closed.  The map is recentred on
    the selected marker when it is registered and the map exists, and is
    left alone otherwise.  Running the effect again changes nothing.  On a
    page whose records all had markers already the group of the run is
    empty, no marker is on the map, and the effect opens no popup. *)
Theorem highlight_selected (selectedId : option string) (m : MountedMap) :
  ClosedOffMap m ->
  let m' := highlight selectedId m in
  layers m' = layers m /\
  (forall i, is_Some (markers (geo m') !! i) <-> is_Some (markers (geo m) !! i)) /\
  (forall i marker', markers (geo m') !! i = Some marker' ->
     (exists marker, markers (geo m) !! i = Some marker /\
                     latLng marker' = latLng marker /\ title marker' = title marker) /\
     (markerIcon marker' = LargeIcon <-> selectedId = Some i) /\
     (popupOpen marker' = true <-> selectedId = Some i /\ i ∈ layers m) /\
     (selectedId <> Some i ->
        markerIcon marker' = SmallIcon /\ popupOpen marker' = false)) /\
  (forall i j mi mj,
     markers (geo m') !! i = Some mi -> markers (geo m') !! j = Some mj ->
     markerIcon mi = LargeIcon -> markerIcon mj = LargeIcon -> i = j) /\
  (forall sel marker, selectedId = Some sel ->
     markers (geo m) !! sel = Some marker ->
     mapReady (geo m) = true -> view (geo m') = SelectedView (latLng marker)) /\
  ((selectedId = None \/ mapReady (geo m) = false \/
    exists sel, selectedId = Some sel /\ markers (geo m) !! sel = None) ->
     view (geo m') = view (geo m)) /\
  highlight selectedId m' = m' /\
  ClosedOffMap m' /\
  (forall data, ClosedOffMap (markersEffect data m)) /\
  (forall data,
     (forall r, In r data -> is_Some (markers (geo m) !! id r)) ->
     layers (markersEffect data m) = [] /\
     forall i marker,
       markers (geo (highlight selectedId (markersEffect data m))) !! i = Some marker ->
       popupOpen marker = false).
Proof.
  intros Hclosed. cbv zeta.
  assert (Hone : forall (n : MountedMap) i marker',
            markers (geo (highlight selectedId n)) !! i = Some marker' ->
            exists marker, markers (geo n) !! i = Some marker /\
              marker' = highlightMarker selectedId (bool_decide (i ∈ layers n)) i marker).
  { intros n i marker'. rewrite highlight_lookup.
    destruct (markers (geo n) !! i) as [marker|]; [|discriminate].
    intros [= <-]. eauto. }
  assert (Hicon : forall b i marker,
            markerIcon (highlightMarker selectedId b i marker) = LargeIcon <->
            selectedId = Some i).
  { intros b i marker. unfold highlightMarker.
    destruct (decide (selectedId = Some i)) as [Es|Es].
    - rewrite (bool_decide_eq_true_2 _ Es). cbn. tauto.
    - rewrite (bool_decide_eq_false_2 _ Es). cbn. split; [discriminate | tauto]. }
  assert (Hpopup : forall (n : MountedMap) i marker,
            ClosedOffMap n -> markers (geo n) !! i = Some marker ->
            (popupOpen (highlightMarker selectedId (bool_decide (i ∈ layers n)) i marker)
               = true <-> selectedId = Some i /\ i ∈ layers n)).
  { intros n i marker Hc Hm. unfold highlightMarker.
    destruct (decide (selectedId = Some i)) as [Es|Es].
    - rewrite (bool_decide_eq_true_2 _ Es). cbn.
      destruct (decide (i ∈ layers n)) as [El|El].
      + rewrite (bool_decide_eq_true_2 _ El). tauto.
      + rewrite (bool_decide_eq_false_2 _ El), (Hc i marker Hm El).
        split; [discriminate | tauto].
    - rewrite (bool_decide_eq_false_2 _ Es). cbn.
      split; [discriminate | tauto]. }
  assert (Heffect : forall data, ClosedOffMap (markersEffect data m)).
  { intros data i marker Hm _. now apply (markersEffect_closed data m Hclosed i). }
  split; [reflexivity|]. split; [|split; [|split; [|split; [|split; [|split; [|split; [|split]]]]]]].
  - intros i. rewrite highlight_lookup. unfold is_Some.
    destruct (markers (geo m) !! i); cbn; split; intros [? ?]; eauto; discriminate.
  - intros i marker' Hm'. destruct (Hone m i marker' Hm') as (marker & Hm & ->).
    split; [|split; [|split]].
    + exists marker. unfold highlightMarker.
      destruct (bool_decide (selectedId = Some i)); cbn; auto.
    + apply Hicon.
    + now apply Hpopup.
    + intros Hne. unfold highlightMarker. now rewrite bool_decide_eq_false_2.
  - intros i j mi mj Hi Hj Li Lj.
    destruct (Hone m i mi Hi) as (m1 & _ & ->).
    destruct (Hone m j mj Hj) as (m2 & _ & ->).
    apply Hicon in Li, Lj. congruence.
  - intros sel marker -> Hm Hr. unfold highlight. cbn [geo view]. now rewrite Hm, Hr.
  - unfold highlight. cbn [geo view].
    intros [->|[Hr|(sel & -> & Hn)]]; [reflexivity | | now rewrite Hn].
    destruct selectedId as [sel|]; [|reflexivity].
    destruct (markers (geo m) !! sel); [now rewrite Hr | reflexivity].
  - unfold highlight. cbn [geo layers mapReady markers view].
    f_equal. f_equal.
    + apply map_eq. intros i. rewrite !map_lookup_imap.
      destruct (markers (geo m) !! i) as [marker|]; cbn; [|reflexivity].
      f_equal. unfold highlightMarker.
      destruct (bool_decide (selectedId = Some i)); cbn; [|reflexivity].
      now destruct (bool_decide (i ∈ layers m)).
    + destruct selectedId as [sel|]; [|reflexivity].
      rewrite map_lookup_imap.
      destruct (markers (geo m) !! sel) as [marker|]; cbn; [|reflexivity].
      destruct (mapReady (geo m)); [|reflexivity].
      unfold highlightMarker.
      now destruct (bool_decide (Some sel = Some sel)).
  - intros i marker' Hm' Hoff. cbn [layers highlight] in Hoff.
    destruct (Hone m i marker' Hm') as (marker & Hm & ->).
    destruct (popupOpen (highlightMarker _ _ i marker)) eqn:E; [|reflexivity].
    apply (Hpopup m i marker Hclosed Hm) in E. tauto.
  - exact Heffect.
  - intros data Hall.
    assert (Hlayers : layers (markersEffect data m) = []).
    { unfold markersEffect. rewrite addMarkers_registered; [reflexivity|].
      intros r Hr. rewrite clearLayers_lookup.
      destruct (Hall r Hr) as [marker ->]. cbn. eauto. }
    split; [exact Hlayers|].
    intros i marker' Hm'.
    destruct (Hone (markersEffect data m) i marker' Hm') as (marker & Hm & ->).
    destruct (popupOpen (highlightMarker _ _ i marker)) eqn:E; [|reflexivity].
    apply (Hpopup _ i marker (Heffect data) Hm) in E.
    rewrite Hlayers in E. destruct E as [_ E]. now apply elem_of_nil in E.
Qed.

Lemma emptyMounted_ClosedOffMap : ClosedOffMap emptyMounted.
Proof. intros i marker Hm. cbn in Hm. now rewrite lookup_empty in Hm. Qed.

Lemma highlight_selected_witness :
  view (geo (highlight (Some (id sampleA))
               (markersEffect [sampleA; sampleB] emptyMounted))) =
  SelectedView (latLng (newMarker sampleA)).
Proof.
  destruct (highlight_selected (Some (id sampleA))
              (markersEffect [sampleA; sampleB] emptyMounted))
    as (_ & _ & _ & _ & Hview & _).
  - intros i marker Hm _.
    apply (markersEffect_closed [sampleA; sampleB] emptyMounted
             emptyMounted_ClosedOffMap i marker Hm).
  - apply (Hview (id sampleA)); reflexivity.
Defined.
Lemma getMockData_generates_once_witness :
  contents (heap (snd (getMockData [sampleA; sampleB] emptyStore)))
    (fst (getMockData [sampleA; sampleB] emptyStore)) = [sampleA; sampleB].
Proof.
  destruct (getMockData_generates_once [sampleA; sampleB] [] emptyStore)
    as (_ & _ & Hfirst & _).
  apply Hfirst. reflexivity.
Defined.

Lemma generateMockData_ids_witness :
  exists r, generateMockData sampleDrawn !! 41%nat = Some r /\
    id r = "project-" +:+ Number_toString (41 + 1) /\
    projectName r =
      nth (41 mod 15) projectNames "" +:+ " " +:+ Number_toString (41 / 15 + 1).
Proof.
  destruct (generateMockData_ids sampleDrawn) as (_ & Hith & _).
  apply (Hith 41%nat). lia.
Defined.

Lemma fetchProjects_generated_solar_witness :
  exists i, (i < 5000)%nat /\ (i mod 15 = 0)%nat /\
    generatedProject sampleDrawn 15 = generatedProject sampleDrawn i.
Proof.
  destruct (fetchProjects_generated_solar (H := codeUnitCollator) sampleDrawn
              2 1 None None) as [_ Hitems].
  apply Hitems. vm_compute. left. reflexivity.
Defined.
